(** * Negative-keyword conflict finder: a shallow embedding

    The two scripts embedded here are
    [Scripts/single-acc-neg-kw-conflicts.js] (module [Single]) and its
    multi-account successor, the MCC Negative Keyword Conflict Finder
    (module [Mcc]).

    - Strings are sequences of UTF-16 code units; the string operations the
      scripts call are in module [JS].  [toUpperCase] and [toLowerCase] are
      parameters (class [CaseConv]) of which only a few laws are used.
    - Objects used as dictionaries are insertion-ordered association lists,
      visited in the engine's property enumeration order ([forIn]).
    - A field of a report row is a [jsval]; a report is the list of its
      rows, and a query that raises outside the per-row handlers is [None].
    - Exceptions are an explicit [result]; [null] is [None].
    - [Logger.log] calls and the spreadsheet, which have no effect on the
      values computed here, are left out. *)

From Stdlib Require Import ZArith NArith List Bool Lia Sorted Permutation.
From Stdlib Require Strings.String Strings.Ascii.
From stdpp Require Import base decidable option list numbers gmap.
Import String.StringSyntax.
Delimit Scope string_scope with string.
Import ListNotations.

Local Open Scope N_scope.

(** ** Strings of the engine *)

(** A UTF-16 code unit. *)
Definition code := N.

(** A string value: its code units in order. *)
Definition str := list code.

(** Literals: an ASCII literal read as code units. *)
Definition js (s : String.string) : str :=
  map Ascii.N_of_ascii (String.list_ascii_of_string s).
Arguments js s%_string.

Definition SPACE : code := 32.
Definition PLUS : code := 43.
Definition DQUOTE : code := 34.
Definition LBRACKET : code := 91.
Definition RBRACKET : code := 93.

Module JS.

(** [WhiteSpace] and [LineTerminator] code points: what [trim] removes and
    what the class [\s] matches. *)
Definition isWhitespace (c : code) : bool :=
  ((9 <=? c) && (c <=? 13)) || (c =? 32) || (c =? 160) || (c =? 5760)
  || ((8192 <=? c) && (c <=? 8202)) || (c =? 8232) || (c =? 8233)
  || (c =? 8239) || (c =? 8287) || (c =? 12288) || (c =? 65279).

(** [\d] *)
Definition isDigit (c : code) : bool := (48 <=? c) && (c <=? 57).

Fixpoint trimStart (s : str) : str :=
  match s with
  | c :: t => if isWhitespace c then trimStart t else s
  | [] => []
  end.

Definition trimEnd (s : str) : str := rev (trimStart (rev s)).

(** [s.trim()] *)
Definition trim (s : str) : str := trimEnd (trimStart s).

(** [s.startsWith(p)] *)
Fixpoint startsWith (p s : str) : bool :=
  match p, s with
  | [], _ => true
  | a :: p', b :: s' => (a =? b) && startsWith p' s'
  | _ :: _, [] => false
  end.

(** [s.endsWith(p)] *)
Definition endsWith (p s : str) : bool := startsWith (rev p) (rev s).

(** [s.substring(start, end)]: both indices are clamped to the string and
    swapped when the first exceeds the second. *)
Definition substring (s : str) (start stop : Z) : str :=
  let len := Z.of_nat (length s) in
  let a := Z.min (Z.max start 0) len in
  let b := Z.min (Z.max stop 0) len in
  let lo := Z.min a b in
  let hi := Z.max a b in
  take (Z.to_nat (hi - lo)) (drop (Z.to_nat lo) s).

(** [s.substring(start)] *)
Definition substringFrom (s : str) (start : Z) : str :=
  substring s start (Z.of_nat (length s)).

(** [s.split(sep)] for a one-unit separator. *)
Fixpoint split (sep : code) (s : str) : list str :=
  match s with
  | [] => [[]]
  | c :: t =>
      if c =? sep then [] :: split sep t
      else match split sep t with
           | h :: r => (c :: h) :: r
           | [] => [[c]]
           end
  end.

(** [parts.join(sep)] *)
Fixpoint join (sep : str) (parts : list str) : str :=
  match parts with
  | [] => []
  | [x] => x
  | x :: r => x ++ sep ++ join sep r
  end.

Fixpoint indexOfFrom (needle hay : str) (i : Z) : Z :=
  if startsWith needle hay then i
  else match hay with
       | [] => (-1)%Z
       | _ :: t => indexOfFrom needle t (i + 1)%Z
       end.

(** [hay.indexOf(needle)] *)
Definition indexOf (hay needle : str) : Z := indexOfFrom needle hay 0%Z.

(** [hay.includes(needle)] on strings. *)
Definition includes (hay needle : str) : bool :=
  negb (indexOf hay needle =? -1)%Z.

(** [s.replace(pat, '')] with a string pattern: only the first occurrence
    is removed. *)
Fixpoint removeFirst (pat s : str) : str :=
  if startsWith pat s then drop (length pat) s
  else match s with
       | [] => []
       | c :: t => c :: removeFirst pat t
       end.

(** [s.replace(/\s+/g, ' ')]: [inRun] tells that the previous unit was
    whitespace and its run has already produced its single space. *)
Fixpoint collapseFrom (inRun : bool) (s : str) : str :=
  match s with
  | [] => []
  | c :: t =>
      if isWhitespace c
      then (if inRun then collapseFrom true t else SPACE :: collapseFrom true t)
      else c :: collapseFrom false t
  end.

Definition collapseWhitespace (s : str) : str := collapseFrom false s.

(** [s.replace(/\+(\S+)/g, '$1')]: a [+] that is followed by at least one
    non-whitespace unit is dropped and the whole non-whitespace run after
    it is copied as it is ([inRun] is true while inside that run). *)
Fixpoint stripPlusFrom (inRun : bool) (s : str) : str :=
  match s with
  | [] => []
  | c :: t =>
      if inRun then
        (if isWhitespace c then
           (* the run ended before [c]; [c] is not [+] *)
           c :: stripPlusFrom false t
         else c :: stripPlusFrom true t)
      else if c =? PLUS then
        match t with
        | d :: _ => if isWhitespace d then c :: stripPlusFrom false t
                    else stripPlusFrom true t
        | [] => [c]
        end
      else c :: stripPlusFrom false t
  end.

Definition stripPlusRegex (s : str) : str := stripPlusFrom false s.

(** [list.includes(x)] on an array of strings. *)
Definition arrayIncludes (l : list str) (x : str) : bool :=
  bool_decide (x ∈ l).

End JS.

(** ** Case conversion

    [toUpperCase] and [toLowerCase] follow the Unicode case mappings, which
    are not a per-unit function.  The development is parametric in them and
    uses only the laws below. *)

Definition isAscii (c : code) : bool := c <? 128.

Definition upperAscii (c : code) : code :=
  if (97 <=? c) && (c <=? 122) then c - 32 else c.

Definition lowerAscii (c : code) : code :=
  if (65 <=? c) && (c <=? 90) then c + 32 else c.

Class CaseConv := {
  toUpperCase : str -> str;
  toLowerCase : str -> str;
  (** on ASCII text upper-casing works unit by unit *)
  upper_ascii : forall s, forallb isAscii s = true ->
                          toUpperCase s = map upperAscii s;
  (** lower-casing a lower-cased string changes nothing *)
  lower_idem : forall s, toLowerCase (toLowerCase s) = toLowerCase s;
  (** a space is kept and separates the contexts of the mapping *)
  lower_space : forall a b, toLowerCase (a ++ SPACE :: b)
                            = toLowerCase a ++ SPACE :: toLowerCase b;
  (** no mapping produces whitespace *)
  lower_nonws : forall s, forallb (fun c => negb (JS.isWhitespace c)) s = true ->
                forallb (fun c => negb (JS.isWhitespace c)) (toLowerCase s) = true;
  (** no mapping erases text, and none creates it *)
  lower_nonempty : forall s, s <> [] -> toLowerCase s <> [];
  lower_nil : toLowerCase [] = []
}.

(** The per-unit conversion of ASCII letters, which leaves every other unit
    as it is, satisfies the laws; closed examples are evaluated with it. *)
Definition asciiCase : CaseConv.
Proof.
  refine {| toUpperCase := map upperAscii; toLowerCase := map lowerAscii |}.
  - done.
  - intros s. rewrite map_map. apply map_ext. intros c. unfold lowerAscii.
    destruct ((65 <=? c) && (c <=? 90)) eqn:E; [|by rewrite E].
    apply andb_prop in E as [E1%N.leb_le E2%N.leb_le].
    destruct (N.leb_spec 65 (c + 32)), (N.leb_spec (c + 32) 90); simpl; lia.
  - intros a b. by rewrite map_app.
  - induction s as [|c s IH]; simpl; [done|].
    intros [Hc Hs]%andb_prop. rewrite (IH Hs), andb_true_r.
    unfold lowerAscii. destruct ((65 <=? c) && (c <=? 90)) eqn:E; [|done].
    apply andb_prop in E as [E1%N.leb_le E2%N.leb_le].
    unfold JS.isWhitespace.
    repeat match goal with
    | |- context [?a <=? ?b] => destruct (N.leb_spec a b); try lia
    | |- context [?a =? ?b] => destruct (N.eqb_spec a b); try lia
    end; done.
  - intros [|c s] Hs; [done|]. simpl. discriminate.
  - done.
Defined.

(** ** Values and keywords *)

(** The values a field of a report row can hold. *)
Inductive jsval :=
| JUndefined
| JNull
| JBool (b : bool)
| JString (s : str).

#[global] Instance jsval_eq_dec : EqDecision jsval.
Proof. solve_decision. Defined.

(** [!!v] *)
Definition truthy (v : jsval) : bool :=
  match v with
  | JBool b => b
  | JString s => negb (bool_decide (s = []))
  | JUndefined | JNull => false
  end.

(** [`${v}`] and the conversion of [v] to a property key. *)
Definition toStr (v : jsval) : str :=
  match v with
  | JUndefined => js "undefined"
  | JNull => js "null"
  | JBool true => js "true"
  | JBool false => js "false"
  | JString s => s
  end.

(** The object [{ display, raw, matchType }] built by [normalizeKeyword]. *)
Record keyword := Keyword {
  display : str;
  raw : str;
  matchType : str
}.

#[global] Instance keyword_eq_dec : EqDecision keyword.
Proof. solve_decision. Defined.

Definition EXACT : str := js "EXACT".
Definition PHRASE : str := js "PHRASE".
Definition BROAD : str := js "BROAD".

(** The outcome of code that can raise. *)
Inductive result (A : Type) :=
| Ok (a : A)
| Throws.
Arguments Ok {A} a.
Arguments Throws {A}.

#[global] Instance result_bind : MBind result := fun A B f r =>
  match r with
  | Ok a => f a
  | Throws => Throws
  end.

(** [trimKeyword(text, open, close)], the same text in both scripts. *)
Definition trimKeyword (text open close : str) : str :=
  if JS.startsWith open text && JS.endsWith close text
  then JS.trim (JS.substring text (Z.of_nat (length open))
                   (Z.of_nat (length text) - Z.of_nat (length close)))
  else text.

(** [tokens.filter(t => t !== '')] *)
Definition nonEmptyTokens (tokens : list str) : list str :=
  filter (fun t => t <> []) tokens.

(** The display text: the cleaned text wrapped by canonical match type. *)
Definition displayOf (rawText normalizedMatchType : str) : str :=
  if bool_decide (normalizedMatchType = PHRASE)
  then DQUOTE :: rawText ++ [DQUOTE]
  else if bool_decide (normalizedMatchType = EXACT)
  then LBRACKET :: rawText ++ [RBRACKET]
  else rawText.

(** [matchType.toUpperCase().replace('_MATCH', '')] followed by the
    fallback to BROAD for a value outside the three canonical ones. *)
Definition canonicalMatchType `{CaseConv} (matchType : str) : str :=
  let normalizedMatchType := JS.removeFirst (js "_MATCH") (toUpperCase matchType) in
  if JS.arrayIncludes [EXACT; PHRASE; BROAD] normalizedMatchType
  then normalizedMatchType
  else BROAD.

(** ** Objects used as dictionaries *)

(** A plain object whose properties are added by assignment: the entries are
    kept in insertion order under unique keys.  Only own properties are
    modelled. *)
Definition obj (V : Type) := list (str * V).

(** [o[k]] *)
Fixpoint obj_get {V} (o : obj V) (k : str) : option V :=
  match o with
  | [] => None
  | (k', v) :: r => if bool_decide (k' = k) then Some v else obj_get r k
  end.

(** [o[k] = v] *)
Fixpoint obj_set {V} (o : obj V) (k : str) (v : V) : obj V :=
  match o with
  | [] => [(k, v)]
  | (k', v') :: r =>
      if bool_decide (k' = k) then (k', v) :: r else (k', v') :: obj_set r k v
  end.

Definition digitsValue (s : str) : N :=
  fold_left (fun acc c => acc * 10 + (c - 48)) s 0.

(** A key is an array index when it is the canonical decimal form of an
    integer below 2^32 - 1. *)
Definition arrayIndex (k : str) : option N :=
  if forallb JS.isDigit k && negb (bool_decide (k = []))
     && (bool_decide (k = [48]) || negb (JS.startsWith [48] k))
     && (digitsValue k <=? 4294967294)
  then Some (digitsValue k) else None.

Fixpoint insertIndexed {V} (i : N) (e : str * V) (l : list (N * (str * V)))
  : list (N * (str * V)) :=
  match l with
  | [] => [(i, e)]
  | (j, e') :: r =>
      if i <=? j then (i, e) :: l else (j, e') :: insertIndexed i e r
  end.

(** The entries under array-index keys, sorted by index. *)
Definition indexedEntries {V} (o : obj V) : list (N * (str * V)) :=
  foldr (fun e acc => match arrayIndex e.1 with
                      | Some i => insertIndexed i e acc
                      | None => acc
                      end) [] o.

(** The order in which [for (const k in o)] visits the entries: array-index
    keys in ascending numeric order, then the other keys in insertion
    order. *)
Definition forIn {V} (o : obj V) : list (str * V) :=
  map snd (indexedEntries o) ++ filter (fun e => arrayIndex e.1 = None) o.

(** ** The data cache *)

(** The element type [K] of the keyword arrays is [keyword] in the
    multi-account script and [option keyword] in the single-account one,
    whose arrays can hold [null]. *)
Record adGroupEntry (K : Type) := AdGroupEntry {
  ag_name : jsval;
  ag_positives : list K;
  ag_negatives : list K
}.
Arguments AdGroupEntry {K}.
Arguments ag_name {K}.
Arguments ag_positives {K}.
Arguments ag_negatives {K}.

Record listRef := ListRef {
  lr_listId : str;
  lr_listName : jsval
}.

Record campaignEntry (K : Type) := CampaignEntry {
  c_name : jsval;
  c_adGroups : obj (adGroupEntry K);
  c_negatives : list K;
  c_sharedListNegatives : list listRef
}.
Arguments CampaignEntry {K}.
Arguments c_name {K}.
Arguments c_adGroups {K}.
Arguments c_negatives {K}.
Arguments c_sharedListNegatives {K}.

Record sharedListEntry (K : Type) := SharedListEntry {
  sl_name : jsval;
  sl_negatives : list K
}.
Arguments SharedListEntry {K}.
Arguments sl_name {K}.
Arguments sl_negatives {K}.

(** ** The data source *)

(** The fields the scripts read from a row; a field that is absent, or whose
    parent object is absent, is [JUndefined]. *)
Record keywordRow := KeywordRow {
  kr_campaignId : jsval;
  kr_campaignName : jsval;
  kr_adGroupId : jsval;
  kr_adGroupName : jsval;
  kr_text : jsval;
  kr_matchType : jsval;
  kr_negative : jsval
}.

Record campaignNegativeRow := CampaignNegativeRow {
  cn_campaignId : jsval;
  cn_text : jsval;
  cn_matchType : jsval
}.

Record sharedKeywordRow := SharedKeywordRow {
  sk_listId : jsval;
  sk_listName : jsval;
  sk_text : jsval;
  sk_matchType : jsval
}.

Record associationRow := AssociationRow {
  as_campaignId : jsval;
  as_sharedSet : jsval
}.

Record accountNegativeRow := AccountNegativeRow {
  an_text : jsval;
  an_matchType : jsval
}.

(** What each [AdsApp.search] call of one run returns: the rows of the
    report, or [None] when the fetch raises outside the per-row handlers. *)
Record dataSource := DataSource {
  keywordSample : option (list keywordRow);
  keywordReport : option (list keywordRow);
  campaignNegativeSample : option (list campaignNegativeRow);
  campaignNegativeReport : option (list campaignNegativeRow);
  sharedKeywordReport : option (list sharedKeywordRow);
  associationReport : option (list associationRow);
  accountNegativeReport : option (list accountNegativeRow)
}.

Fixpoint spanDigits (s : str) : str * str :=
  match s with
  | c :: t =>
      if JS.isDigit c then let '(d, r) := spanDigits t in (c :: d, r)
      else ([], s)
  | [] => ([], [])
  end.

(** [resourceName.match(/sharedSets\/(\d+)$/)]: the first capture, which is
    the trailing run of digits when that run is not empty and directly
    follows [sharedSets/]. *)
Definition extractListId (resourceName : str) : option str :=
  let '(digitsRev, restRev) := spanDigits (rev resourceName) in
  if negb (bool_decide (digitsRev = []))
     && JS.endsWith (js "sharedSets/") (rev restRev)
  then Some (rev digitsRev) else None.

(** The change made through a reference to the object stored under [k]:
    [o[k].field = ...] or [o[k].list.push(...)]. *)
Definition obj_update {V} (o : obj V) (k : str) (f : V -> V) : obj V :=
  match obj_get o k with
  | Some v => obj_set o k (f v)
  | None => o
  end.

(** [if (!o[k]) o[k] = v] *)
Definition obj_init {V} (o : obj V) (k : str) (v : V) : obj V :=
  match obj_get o k with
  | Some _ => o
  | None => obj_set o k v
  end.

Definition pushPositive {K} (k : K) (g : adGroupEntry K) : adGroupEntry K :=
  AdGroupEntry (ag_name g) (ag_positives g ++ [k]) (ag_negatives g).

Definition pushNegative {K} (k : K) (g : adGroupEntry K) : adGroupEntry K :=
  AdGroupEntry (ag_name g) (ag_positives g) (ag_negatives g ++ [k]).

Definition withAdGroups {K} (f : obj (adGroupEntry K) -> obj (adGroupEntry K))
  (e : campaignEntry K) : campaignEntry K :=
  CampaignEntry (c_name e) (f (c_adGroups e)) (c_negatives e)
                (c_sharedListNegatives e).

Definition pushCampaignNegative {K} (k : K) (e : campaignEntry K)
  : campaignEntry K :=
  CampaignEntry (c_name e) (c_adGroups e) (c_negatives e ++ [k])
                (c_sharedListNegatives e).

Definition pushListRef {K} (r : listRef) (e : campaignEntry K)
  : campaignEntry K :=
  CampaignEntry (c_name e) (c_adGroups e) (c_negatives e)
                (c_sharedListNegatives e ++ [r]).

Definition pushListNegative {K} (k : K) (l : sharedListEntry K)
  : sharedListEntry K :=
  SharedListEntry (sl_name l) (sl_negatives l ++ [k]).

(** The keyword rows of both scripts start alike: a row that lacks an id,
    the text or the match type is skipped; otherwise the campaign and ad
    group entries are created when missing.  [None] is the skipped row. *)
Definition ensureAdGroup {K} (campaigns : obj (campaignEntry K))
  (row : keywordRow) : option (obj (campaignEntry K)) :=
  if negb (truthy (kr_campaignId row)) || negb (truthy (kr_adGroupId row))
     || negb (truthy (kr_text row)) || negb (truthy (kr_matchType row))
  then None
  else
    let campaignId := toStr (kr_campaignId row) in
    let adGroupId := toStr (kr_adGroupId row) in
    let campaigns :=
      obj_init campaigns campaignId
        (CampaignEntry (kr_campaignName row) [] [] []) in
    Some (obj_update campaigns campaignId
            (withAdGroups (fun adGroups =>
               obj_init adGroups adGroupId
                 (AdGroupEntry (kr_adGroupName row) [] [])))).

(** The routing of a keyword by the [negative] flag of its row: [true] goes
    to the negatives, [false] and anything else to the positives. *)
Definition routeKeyword {K} (campaigns : obj (campaignEntry K))
  (row : keywordRow) (k : K) : obj (campaignEntry K) :=
  obj_update campaigns (toStr (kr_campaignId row))
    (withAdGroups (fun adGroups =>
       obj_update adGroups (toStr (kr_adGroupId row))
         (if bool_decide (kr_negative row = JBool true)
          then pushNegative k else pushPositive k))).

(** The association rows are handled alike in both scripts. *)
Definition addAssociation {K} (campaigns : obj (campaignEntry K))
  (sharedLists : obj (sharedListEntry K)) (row : associationRow)
  : obj (campaignEntry K) :=
  if negb (truthy (as_campaignId row)) || negb (truthy (as_sharedSet row))
  then campaigns
  else
    match as_sharedSet row with
    | JString sharedSetResourceName =>
        match extractListId sharedSetResourceName with
        | None => campaigns
        | Some listId =>
            let campaignId := toStr (as_campaignId row) in
            match obj_get campaigns campaignId, obj_get sharedLists listId with
            | Some campaign, Some sharedList =>
                let alreadyAdded :=
                  existsb (fun item => bool_decide (lr_listId item = listId))
                          (c_sharedListNegatives campaign) in
                if alreadyAdded then campaigns
                else obj_update campaigns campaignId
                       (pushListRef (ListRef listId (sl_name sharedList)))
            | _, _ => campaigns
            end
        end
    | _ => campaigns (* [.match] is not a function: caught, row skipped *)
    end.

(** A conflict row: [[negative.display, locationString, blocked.join(', ')]]. *)
Definition conflictRow := list str.

Definition adGroupLocationOf (adGroupName campaignName : jsval) : str :=
  js "Ad Group: " ++ toStr adGroupName ++ js " (Campaign: "
  ++ toStr campaignName ++ js ")".

Definition campaignLocationOf (campaignName : jsval) : str :=
  js "Campaign: " ++ toStr campaignName.

Definition sharedListLocationOf (listName : str) (campaignName : jsval) : str :=
  js "Shared List: " ++ listName ++ js " (Applied to Campaign: "
  ++ toStr campaignName ++ js ")".

(** A loop whose body can raise: the first exception ends it. *)
Fixpoint foldM {A B} (f : B -> A -> result B) (l : list A) (b : B)
  : result B :=
  match l with
  | [] => Ok b
  | a :: r => b' ← f b a; foldM f r b'
  end.

(** ** The multi-account script *)

Module Mcc.
Section Normalizer.
Context `{CaseConv}.

(** The wrapper removal, chosen by substring tests on the upper-cased
    match type as it was received. *)
Definition stripWrapper (trimmed matchType : str) : str :=
  if JS.includes (toUpperCase matchType) PHRASE
  then trimKeyword trimmed [DQUOTE] [DQUOTE]
  else if JS.includes (toUpperCase matchType) EXACT
  then trimKeyword trimmed [LBRACKET] [RBRACKET]
  else trimmed.

(** [raw.split(' ').map(word => word.startsWith('+') ? word.substring(1) : word).join(' ')] *)
Definition stripModifiers (s : str) : str :=
  JS.join [SPACE]
    (map (fun word => if JS.startsWith [PLUS] word
                      then JS.substringFrom word 1 else word)
         (JS.split SPACE s)).

(** The value of [raw] when the final emptiness check is reached, for a
    string [text] and a string [matchType]. *)
Definition cleanRaw (text matchType : str) : str :=
  let raw := JS.trim text in
  let raw := stripWrapper raw matchType in
  let raw := stripModifiers raw in
  let raw := JS.trim (JS.collapseWhitespace raw) in
  toLowerCase raw.

Definition normalizeKeyword (text matchType : jsval) : option keyword :=
  match text, matchType with
  | JString t, JString mt =>
      if negb (truthy text) || bool_decide (JS.trim t = []) then None
      else if negb (truthy matchType) then None
      else
        let normalizedMatchType := canonicalMatchType mt in
        let raw := cleanRaw t mt in
        if bool_decide (raw = []) then None
        else Some {| display := displayOf raw normalizedMatchType;
                     raw := raw;
                     matchType := normalizedMatchType |}
  | _, _ => None (* [!v || typeof v !== 'string'] for one of the two *)
  end.

End Normalizer.

Definition hasAllTokens (keywordText1 keywordText2 : str) : bool :=
  if bool_decide (keywordText1 = []) then true
  else if bool_decide (keywordText2 = []) then false
  else
    let tokens1 := nonEmptyTokens (JS.split SPACE keywordText1) in
    if bool_decide (length tokens1 = 0%nat) then true
    else
      let tokenSet2 : gset str :=
        list_to_set (nonEmptyTokens (JS.split SPACE keywordText2)) in
      forallb (fun token => bool_decide (token ∈ tokenSet2)) tokens1.

Definition isSubsequence (keywordText1 keywordText2 : str) : bool :=
  if bool_decide (keywordText1 = []) then true
  else if bool_decide (keywordText2 = []) then false
  else negb (JS.indexOf (SPACE :: keywordText2 ++ [SPACE])
                        (SPACE :: keywordText1 ++ [SPACE]) =? -1)%Z.

(** [None] is a [null] argument; the [raw] field of a keyword object is a
    string by its type. *)
Definition negativeBlocksPositive (negative positive : option keyword) : bool :=
  match negative, positive with
  | Some negative, Some positive =>
      if bool_decide (matchType negative = EXACT)
      then bool_decide (raw positive = raw negative)
      else if bool_decide (matchType negative = PHRASE)
      then (if bool_decide (matchType positive = EXACT)
            then bool_decide (raw positive = raw negative)
            else isSubsequence (raw negative) (raw positive))
      else if bool_decide (matchType negative = BROAD)
      then hasAllTokens (raw negative) (raw positive)
      else false
  | _, _ => false
  end.


(** *** Building the cache *)

Record cache := Cache {
  campaigns : obj (campaignEntry keyword);
  sharedLists : obj (sharedListEntry keyword);
  accountNegatives : list keyword
}.

Definition emptyCache : cache := Cache [] [] [].

Section Builder.
Context `{CaseConv}.

(** One iteration of the row loop of [fetchKeywords]. *)
Definition addKeywordRow (c : cache) (row : keywordRow) : cache :=
  match ensureAdGroup (campaigns c) row with
  | None => c
  | Some campaigns1 =>
      match normalizeKeyword (kr_text row) (kr_matchType row) with
      | None => Cache campaigns1 (sharedLists c) (accountNegatives c)
      | Some normalizedKeyword =>
          Cache (routeKeyword campaigns1 row normalizedKeyword)
                (sharedLists c) (accountNegatives c)
      end
  end.

(** The sample query is run inside its own [try]/[catch] and only feeds the
    log. *)
Definition fetchKeywords (ds : dataSource) (c : cache) : result cache :=
  match keywordReport ds with
  | None => Throws
  | Some rows => Ok (fold_left addKeywordRow rows c)
  end.

Definition addCampaignNegativeRow (c : cache) (row : campaignNegativeRow)
  : cache :=
  if negb (truthy (cn_campaignId row)) || negb (truthy (cn_text row))
     || negb (truthy (cn_matchType row))
  then c
  else
    let campaignId := toStr (cn_campaignId row) in
    match obj_get (campaigns c) campaignId with
    | Some _ =>
        match normalizeKeyword (cn_text row) (cn_matchType row) with
        | Some normalizedKeyword =>
            Cache (obj_update (campaigns c) campaignId
                     (pushCampaignNegative normalizedKeyword))
                  (sharedLists c) (accountNegatives c)
        | None => c
        end
    | None => c
    end.

Definition fetchCampaignNegatives (ds : dataSource) (c : cache)
  : result cache :=
  match campaignNegativeReport ds with
  | None => Throws
  | Some rows => Ok (fold_left addCampaignNegativeRow rows c)
  end.

Definition addSharedKeywordRow (c : cache) (row : sharedKeywordRow) : cache :=
  if negb (truthy (sk_listId row)) || negb (truthy (sk_listName row))
     || negb (truthy (sk_text row)) || negb (truthy (sk_matchType row))
  then c
  else
    let listId := toStr (sk_listId row) in
    let lists := obj_init (sharedLists c) listId
                   (SharedListEntry (sk_listName row) []) in
    match normalizeKeyword (sk_text row) (sk_matchType row) with
    | Some normalizedKeyword =>
        Cache (campaigns c)
              (obj_update lists listId (pushListNegative normalizedKeyword))
              (accountNegatives c)
    | None => Cache (campaigns c) lists (accountNegatives c)
    end.

Definition addAssociationRow (c : cache) (row : associationRow) : cache :=
  Cache (addAssociation (campaigns c) (sharedLists c) row)
        (sharedLists c) (accountNegatives c).

Definition fetchSharedNegativeLists (ds : dataSource) (c : cache)
  : result cache :=
  match sharedKeywordReport ds with
  | None => Throws
  | Some rows =>
      let c := fold_left addSharedKeywordRow rows c in
      match associationReport ds with
      | None => Throws
      | Some rows => Ok (fold_left addAssociationRow rows c)
      end
  end.

Definition addAccountNegativeRow (c : cache) (row : accountNegativeRow)
  : cache :=
  if negb (truthy (an_text row)) || negb (truthy (an_matchType row))
  then c
  else
    match normalizeKeyword (an_text row) (an_matchType row) with
    | Some normalizedKeyword =>
        Cache (campaigns c) (sharedLists c)
              (accountNegatives c ++ [normalizedKeyword])
    | None => c
    end.

Definition fetchAccountNegatives (ds : dataSource) (c : cache)
  : result cache :=
  match accountNegativeReport ds with
  | None => Throws
  | Some rows => Ok (fold_left addAccountNegativeRow rows c)
  end.

(** [None] is the [null] returned from the [catch] block. *)
Definition buildDataCache (ds : dataSource) : option cache :=
  match
    c ← fetchKeywords ds emptyCache;
    c ← fetchCampaignNegatives ds c;
    c ← fetchSharedNegativeLists ds c;
    fetchAccountNegatives ds c
  with
  | Ok c => Some c
  | Throws => None
  end.

End Builder.

(** *** Finding the conflicts *)

(** The inner loop of [checkLevelForConflicts]: the display texts of the
    positives blocked by [negative], pushed in the order of the array.  The
    rule never raises here, so the [catch] block is never entered. *)
Definition blockedBy (negative : keyword) (positives : list keyword)
  : list str :=
  fold_left (fun blockedPositivesDisplay positive =>
               if negativeBlocksPositive (Some negative) (Some positive)
               then blockedPositivesDisplay ++ [display positive]
               else blockedPositivesDisplay)
            positives [].

Definition checkLevelForConflicts (conflictsOutput : list conflictRow)
  (negatives positives : list keyword) (locationString : str)
  : list conflictRow :=
  if bool_decide (length negatives = 0%nat) then conflictsOutput
  else
    fold_left (fun conflictsOutput negative =>
                 let blockedPositivesDisplay := blockedBy negative positives in
                 if bool_decide (0 < length blockedPositivesDisplay)%nat
                 then conflictsOutput
                      ++ [[display negative; locationString;
                           JS.join (js ", ") blockedPositivesDisplay]]
                 else conflictsOutput)
              negatives conflictsOutput.

(** The check of one shared list applied to the campaign. *)
Definition checkSharedList (c : cache) (campaign : campaignEntry keyword)
  (positives : list keyword) (conflictsOutput : list conflictRow)
  (listInfo : listRef) : list conflictRow :=
  let listId := lr_listId listInfo in
  let listName :=
    if truthy (lr_listName listInfo) then toStr (lr_listName listInfo)
    else js "List ID " ++ listId in
  match obj_get (sharedLists c) listId with
  | Some sharedList =>
      checkLevelForConflicts conflictsOutput (sl_negatives sharedList)
        positives (sharedListLocationOf listName (c_name campaign))
  | None => conflictsOutput
  end.

(** The body of the ad group loop of [findConflicts]. *)
Definition checkAdGroup (c : cache) (campaign : campaignEntry keyword)
  (conflictsOutput : list conflictRow) (adGroup : adGroupEntry keyword)
  : list conflictRow :=
  let positives := ag_positives adGroup in
  if bool_decide (length positives = 0%nat) then conflictsOutput
  else
    let conflictsOutput :=
      checkLevelForConflicts conflictsOutput (ag_negatives adGroup) positives
        (adGroupLocationOf (ag_name adGroup) (c_name campaign)) in
    let conflictsOutput :=
      checkLevelForConflicts conflictsOutput (c_negatives campaign) positives
        (campaignLocationOf (c_name campaign)) in
    let conflictsOutput :=
      fold_left (checkSharedList c campaign positives)
                (c_sharedListNegatives campaign) conflictsOutput in
    checkLevelForConflicts conflictsOutput (accountNegatives c) positives
      (js "Account Level").

Definition findConflicts (c : cache) : list conflictRow :=
  fold_left (fun conflictsOutput campaign =>
               fold_left (checkAdGroup c campaign)
                         (map snd (forIn (c_adGroups campaign)))
                         conflictsOutput)
            (map snd (forIn (campaigns c))) [].

End Mcc.
(** ** The single-account script *)

Module Single.
Section Normalizer.
Context `{CaseConv}.

(** The wrapper removal, chosen by the canonical match type. *)
Definition stripWrapper (trimmed normalizedMatchType : str) : str :=
  if bool_decide (normalizedMatchType = PHRASE)
  then trimKeyword trimmed [DQUOTE] [DQUOTE]
  else if bool_decide (normalizedMatchType = EXACT)
  then trimKeyword trimmed [LBRACKET] [RBRACKET]
  else trimmed.

(** The value of [raw] when the final emptiness check is reached. *)
Definition cleanRaw (text matchType : str) : str :=
  let raw := JS.trim text in
  let raw := stripWrapper raw (canonicalMatchType matchType) in
  let raw := JS.stripPlusRegex raw in
  let raw := JS.trim (JS.collapseWhitespace raw) in
  toLowerCase raw.

Definition normalizeKeyword (text matchType : jsval) : option keyword :=
  match text, matchType with
  | JString t, JString mt =>
      if negb (truthy text) || bool_decide (JS.trim t = []) then None
      else if negb (truthy matchType) then None
      else
        let normalizedMatchType := canonicalMatchType mt in
        let raw := cleanRaw t mt in
        let display := displayOf raw normalizedMatchType in
        if bool_decide (raw = []) then None
        else Some {| display := display;
                     raw := raw;
                     matchType := normalizedMatchType |}
  | _, _ => None
  end.

End Normalizer.

Definition hasAllTokens (keywordText1 keywordText2 : str) : bool :=
  if bool_decide (keywordText1 = []) || bool_decide (keywordText2 = [])
  then false
  else
    let tokens1 := JS.split SPACE keywordText1 in
    let tokenSet2 : gset str := list_to_set (JS.split SPACE keywordText2) in
    forallb (fun token => bool_decide (token ∈ tokenSet2)) tokens1.

Definition isSubsequence (keywordText1 keywordText2 : str) : bool :=
  if bool_decide (keywordText1 = []) || bool_decide (keywordText2 = [])
  then false
  else negb (JS.indexOf (SPACE :: keywordText2 ++ [SPACE])
                        (SPACE :: keywordText1 ++ [SPACE]) =? -1)%Z.

(** Reading a property of [null] raises a TypeError; the reads happen in
    the order of the source. *)
Definition negativeBlocksPositive (negative positive : option keyword)
  : result bool :=
  match negative with
  | None => Throws (* [negative.matchType] *)
  | Some negative =>
      if bool_decide (matchType negative = EXACT)
      then match positive with
           | None => Throws (* [positive.raw] *)
           | Some positive => Ok (bool_decide (raw positive = raw negative))
           end
      else if bool_decide (matchType negative = PHRASE)
      then match positive with
           | None => Throws (* [positive.matchType] *)
           | Some positive =>
               if bool_decide (matchType positive = EXACT)
               then Ok (bool_decide (raw positive = raw negative))
               else Ok (isSubsequence (raw negative) (raw positive))
           end
      else if bool_decide (matchType negative = BROAD)
      then match positive with
           | None => Throws (* [positive.raw] *)
           | Some positive => Ok (hasAllTokens (raw negative) (raw positive))
           end
      else Ok false
  end.


(** *** Building the cache *)

Record cache := Cache {
  campaigns : obj (campaignEntry (option keyword));
  sharedLists : obj (sharedListEntry (option keyword))
}.

Definition emptyCache : cache := Cache [] [].

Section Builder.
Context `{CaseConv}.

(** One iteration of the row loop of [fetchKeywords]: the result of
    [normalizeKeyword] is pushed as it is. *)
Definition addKeywordRow (c : cache) (row : keywordRow) : cache :=
  match ensureAdGroup (campaigns c) row with
  | None => c
  | Some campaigns1 =>
      let normalizedKeyword :=
        normalizeKeyword (kr_text row) (kr_matchType row) in
      Cache (routeKeyword campaigns1 row normalizedKeyword) (sharedLists c)
  end.

(** The sample query is run outside any handler. *)
Definition fetchKeywords (ds : dataSource) (c : cache) : result cache :=
  match keywordSample ds with
  | None => Throws
  | Some _ =>
      match keywordReport ds with
      | None => Throws
      | Some rows => Ok (fold_left addKeywordRow rows c)
      end
  end.

Definition addCampaignNegativeRow (c : cache) (row : campaignNegativeRow)
  : cache :=
  if negb (truthy (cn_campaignId row)) || negb (truthy (cn_text row))
     || negb (truthy (cn_matchType row))
  then c
  else
    let campaignId := toStr (cn_campaignId row) in
    match obj_get (campaigns c) campaignId with
    | Some _ =>
        let normalizedKeyword :=
          normalizeKeyword (cn_text row) (cn_matchType row) in
        Cache (obj_update (campaigns c) campaignId
                 (pushCampaignNegative normalizedKeyword))
              (sharedLists c)
    | None => c
    end.

Definition fetchCampaignNegatives (ds : dataSource) (c : cache)
  : result cache :=
  match campaignNegativeSample ds with
  | None => Throws
  | Some _ =>
      match campaignNegativeReport ds with
      | None => Throws
      | Some rows => Ok (fold_left addCampaignNegativeRow rows c)
      end
  end.

Definition addSharedKeywordRow (c : cache) (row : sharedKeywordRow) : cache :=
  if negb (truthy (sk_listId row)) || negb (truthy (sk_listName row))
     || negb (truthy (sk_text row)) || negb (truthy (sk_matchType row))
  then c
  else
    let listId := toStr (sk_listId row) in
    let lists := obj_init (sharedLists c) listId
                   (SharedListEntry (sk_listName row) []) in
    Cache (campaigns c)
          (obj_update lists listId
             (pushListNegative
                (normalizeKeyword (sk_text row) (sk_matchType row)))).

Definition addAssociationRow (c : cache) (row : associationRow) : cache :=
  Cache (addAssociation (campaigns c) (sharedLists c) row) (sharedLists c).

Definition fetchSharedNegativeLists (ds : dataSource) (c : cache)
  : result cache :=
  match sharedKeywordReport ds with
  | None => Throws
  | Some rows =>
      let c := fold_left addSharedKeywordRow rows c in
      match associationReport ds with
      | None => Throws
      | Some rows => Ok (fold_left addAssociationRow rows c)
      end
  end.

(** [None] is the [null] returned from the [catch] block. *)
Definition buildDataCache (ds : dataSource) : option cache :=
  match
    c ← fetchKeywords ds emptyCache;
    c ← fetchCampaignNegatives ds c;
    fetchSharedNegativeLists ds c
  with
  | Ok c => Some c
  | Throws => None
  end.

End Builder.

(** *** Finding the conflicts *)

(** The [try] block of the inner loop of [checkLevelForConflicts]. *)
Definition tryBlock (negative positive : option keyword)
  (blockedPositivesDisplay : list str) : result (list str) :=
  blocks ← negativeBlocksPositive negative positive;
  if blocks : bool then
    match positive with
    | Some positive => Ok (blockedPositivesDisplay ++ [display positive])
    | None => Throws (* [positive.display] *)
    end
  else Ok blockedPositivesDisplay.

(** Its [catch] block builds the log line from [negative.display] and
    [positive.display]; an exception raised there leaves the function. *)
Definition catchBlock (negative positive : option keyword)
  (blockedPositivesDisplay : list str) : result (list str) :=
  match negative, positive with
  | Some _, Some _ => Ok blockedPositivesDisplay
  | _, _ => Throws
  end.

Definition blockedBy (negative : option keyword)
  (positives : list (option keyword)) : result (list str) :=
  foldM (fun blockedPositivesDisplay positive =>
           match tryBlock negative positive blockedPositivesDisplay with
           | Ok blocked => Ok blocked
           | Throws => catchBlock negative positive blockedPositivesDisplay
           end)
        positives [].

Definition checkLevelForConflicts (conflictsOutput : list conflictRow)
  (negatives positives : list (option keyword)) (locationString : str)
  : result (list conflictRow) :=
  if bool_decide (length negatives = 0%nat) then Ok conflictsOutput
  else
    foldM (fun conflictsOutput negative =>
             blockedPositivesDisplay ← blockedBy negative positives;
             if bool_decide (0 < length blockedPositivesDisplay)%nat
             then match negative with
                  | Some negative =>
                      Ok (conflictsOutput
                          ++ [[display negative; locationString;
                               JS.join (js ", ") blockedPositivesDisplay]])
                  | None => Throws (* [negative.display] *)
                  end
             else Ok conflictsOutput)
          negatives conflictsOutput.

Definition checkSharedList (c : cache)
  (campaign : campaignEntry (option keyword))
  (positives : list (option keyword)) (conflictsOutput : list conflictRow)
  (listInfo : listRef) : result (list conflictRow) :=
  let listId := lr_listId listInfo in
  let listName := lr_listName listInfo in
  match obj_get (sharedLists c) listId with
  | Some sharedList =>
      checkLevelForConflicts conflictsOutput (sl_negatives sharedList)
        positives (sharedListLocationOf (toStr listName) (c_name campaign))
  | None => Ok conflictsOutput
  end.

(** The body of the ad group loop of [findConflicts]. *)
Definition checkAdGroup (c : cache)
  (campaign : campaignEntry (option keyword))
  (conflictsOutput : list conflictRow)
  (adGroup : adGroupEntry (option keyword)) : result (list conflictRow) :=
  let positives := ag_positives adGroup in
  if bool_decide (length positives = 0%nat) then Ok conflictsOutput
  else
    conflictsOutput ←
      checkLevelForConflicts conflictsOutput (ag_negatives adGroup) positives
        (adGroupLocationOf (ag_name adGroup) (c_name campaign));
    conflictsOutput ←
      checkLevelForConflicts conflictsOutput (c_negatives campaign) positives
        (campaignLocationOf (c_name campaign));
    foldM (checkSharedList c campaign positives)
          (c_sharedListNegatives campaign) conflictsOutput.

(** An exception leaves [findConflicts], and [main] with it. *)
Definition findConflicts (c : cache) : result (list conflictRow) :=
  foldM (fun conflictsOutput campaign =>
           foldM (checkAdGroup c campaign)
                 (map snd (forIn (c_adGroups campaign)))
                 conflictsOutput)
        (map snd (forIn (campaigns c))) [].

End Single.

(** ** Notions used to state the properties *)

(** [needle] occurs in [hay] as a contiguous run of units. *)
Definition occursIn (needle hay : str) : Prop :=
  exists pre post, hay = pre ++ needle ++ post.

(** Cutting a text at every whitespace unit. *)
Fixpoint wsSplit (s : str) : list str :=
  match s with
  | [] => [[]]
  | c :: t =>
      if JS.isWhitespace c then [] :: wsSplit t
      else match wsSplit t with
           | h :: r => (c :: h) :: r
           | [] => [[c]]
           end
  end.

(** The whitespace-delimited tokens of a text: its maximal runs of units
    that are not whitespace. *)
Definition wsTokens (s : str) : list str :=
  nonEmptyTokens (wsSplit s).

(** The text begins with a whitespace unit. *)
Definition startsWs (s : str) : bool :=
  match s with
  | c :: _ => JS.isWhitespace c
  | [] => false
  end.

(** No unit of the text is whitespace. *)
Definition nonWs (t : str) : bool :=
  forallb (fun c => negb (JS.isWhitespace c)) t.

(** A token: not empty and free of whitespace. *)
Definition isToken (t : str) : bool :=
  negb (bool_decide (t = [])) && nonWs t.

(** The space that precedes the tokens of [t] in a collapsed text. *)
Definition lead (t : str) : str :=
  if startsWs t && negb (bool_decide (wsTokens t = [])) then [SPACE] else [].

(** The shape of the [raw] text of a normalized keyword: tokens separated
    by single spaces, with at least one token. *)
Definition isNormalRaw (r : str) : bool :=
  forallb isToken (JS.split SPACE r).

(** The text consists of spaces only. *)
Definition onlySpaces (s : str) : bool := forallb (fun c => c =? SPACE) s.

(** No space-delimited word of the text begins with [+]. *)
Definition noLeadingPlus (r : str) : bool :=
  forallb (fun word => negb (JS.startsWith [PLUS] word)) (JS.split SPACE r).

(** No [+] of the text is directly followed by a unit that is not
    whitespace. *)
Fixpoint noPlusBeforeText (r : str) : bool :=
  match r with
  | c :: t =>
      match t with
      | d :: _ => negb ((c =? PLUS) && negb (JS.isWhitespace d))
      | [] => true
      end && noPlusBeforeText t
  | [] => true
  end.

(** The text from its first whitespace unit on. *)
Fixpoint fromFirstWhitespace (s : str) : str :=
  match s with
  | [] => []
  | c :: t => if JS.isWhitespace c then s else fromFirstWhitespace t
  end.

(** A space-delimited word from which both scripts remove the same [+]
    signs.  Either the word begins with a [+] that a unit other than
    whitespace follows, and past its first whitespace unit no [+] is
    directly followed by a unit other than whitespace: then both remove the
    leading [+] alone.  Or the word does not begin with [+] and none of its
    [+] is directly followed by a unit other than whitespace: then both
    leave it as it is. *)
Definition sameModifierRemoval (word : str) : bool :=
  match word with
  | c :: r =>
      if c =? PLUS then
        match r with
        | d :: _ =>
            negb (JS.isWhitespace d)
            && noPlusBeforeText (fromFirstWhitespace r)
        | [] => false
        end
      else noPlusBeforeText word
  | [] => true
  end.

(** Every space-delimited word of the text is such a word. *)
Definition modifiersAgree (s : str) : bool :=
  forallb sameModifierRemoval (JS.split SPACE s).



Section MatchTypeNotions.
Context `{CaseConv}.






(** The wrapper that the multi-account script picks from the upper-cased
    match type is the one that the single-account script picks from the
    canonical match type. *)
Definition sameWrapper (matchType : str) : bool :=
  let upper := toUpperCase matchType in
  let canonical := canonicalMatchType matchType in
  if bool_decide (canonical = PHRASE) then JS.includes upper PHRASE
  else if bool_decide (canonical = EXACT)
  then negb (JS.includes upper PHRASE) && JS.includes upper EXACT
  else negb (JS.includes upper PHRASE) && negb (JS.includes upper EXACT).

End MatchTypeNotions.

(** *** The records of a run, stated directly *)

(** The blocking rule of the multi-account script on two keywords. *)
Definition blocks (negative positive : keyword) : bool :=
  Mcc.negativeBlocksPositive (Some negative) (Some positive).

(** What one negative yields when it is evaluated against the positives of
    one ad group: no record when it blocks none of them, and otherwise one
    record that lists the display texts of the blocked positives in the
    order of the positives, joined by a comma and a space. *)
Definition recordOf (positives : list keyword) (locationString : str)
  (negative : keyword) : list conflictRow :=
  match List.filter (blocks negative) positives with
  | [] => []
  | blocked =>
      [[display negative; locationString;
        JS.join (js ", ") (map display blocked)]]
  end.

(** The records of one level: those of its negatives, in order. *)
Definition levelRecords (negatives positives : list keyword)
  (locationString : str) : list conflictRow :=
  flat_map (recordOf positives locationString) negatives.

Definition sharedListRecords (c : Mcc.cache) (campaign : campaignEntry keyword)
  (positives : list keyword) (listInfo : listRef) : list conflictRow :=
  match obj_get (Mcc.sharedLists c) (lr_listId listInfo) with
  | Some sharedList =>
      levelRecords (sl_negatives sharedList) positives
        (sharedListLocationOf
           (if truthy (lr_listName listInfo) then toStr (lr_listName listInfo)
            else js "List ID " ++ lr_listId listInfo)
           (c_name campaign))
  | None => []
  end.

(** The records of one ad group: none when it has no positives, and
    otherwise those of its own negatives, of the campaign negatives, of each
    shared list applied to the campaign and of the account negatives. *)
Definition adGroupRecords (c : Mcc.cache) (campaign : campaignEntry keyword)
  (adGroup : adGroupEntry keyword) : list conflictRow :=
  let positives := ag_positives adGroup in
  if bool_decide (positives = []) then []
  else
    levelRecords (ag_negatives adGroup) positives
      (adGroupLocationOf (ag_name adGroup) (c_name campaign))
    ++ levelRecords (c_negatives campaign) positives
         (campaignLocationOf (c_name campaign))
    ++ flat_map (sharedListRecords c campaign positives)
         (c_sharedListNegatives campaign)
    ++ levelRecords (Mcc.accountNegatives c) positives (js "Account Level").

(** The ad groups of a campaign and the campaigns of a cache in the order in
    which the loops of [findConflicts] visit them. *)
Definition adGroupsInOrder {K} (campaign : campaignEntry K)
  : list (adGroupEntry K) :=
  map snd (forIn (c_adGroups campaign)).

Definition campaignsInOrder (c : Mcc.cache) : list (campaignEntry keyword) :=
  map snd (forIn (Mcc.campaigns c)).

(** The negative and the location of a conflict row. *)
Definition negativeAndLocation (row : conflictRow) : list str := take 2 row.

(** *** Invariants of a cache *)

(** Every keyword of an ad group, of a campaign and of a cache satisfies
    [P]. *)
Definition adGroupAll {K} (P : K -> Prop) (g : adGroupEntry K) : Prop :=
  Forall P (ag_positives g) /\ Forall P (ag_negatives g).

Definition campaignAll {K} (P : K -> Prop) (e : campaignEntry K) : Prop :=
  Forall P (c_negatives e)
  /\ Forall (fun entry => adGroupAll P entry.2) (c_adGroups e).

Definition mccCacheAll (P : keyword -> Prop) (c : Mcc.cache) : Prop :=
  Forall (fun entry => campaignAll P entry.2) (Mcc.campaigns c)
  /\ Forall (fun entry => Forall P (sl_negatives entry.2)) (Mcc.sharedLists c)
  /\ Forall P (Mcc.accountNegatives c).

(** The property of a stored keyword: its raw text is normal, hence not
    empty. *)
Definition storedOk (k : keyword) : Prop := isNormalRaw (raw k) = true.

(** *** Sample data sources *)

Definition jstr (s : String.string) : jsval := JString (js s).
Arguments jstr s%_string.

(** A keyword from ASCII literals of its display text and raw text. *)
Definition kw (d r : String.string) (m : str) : keyword :=
  Keyword (js d) (js r) m.
Arguments kw (d r)%_string m.

(** One campaign with two ad groups that each hold a positive, and one
    campaign negative. *)
Definition twoAdGroups : dataSource :=
  DataSource (Some [])
    (Some [KeywordRow (jstr "1") (jstr "Summer") (jstr "10") (jstr "Boots")
                      (jstr "shoes") (jstr "BROAD") (JBool false);
           KeywordRow (jstr "1") (jstr "Summer") (jstr "11") (jstr "Sandals")
                      (jstr "red shoes") (jstr "BROAD") (JBool false)])
    (Some [])
    (Some [CampaignNegativeRow (jstr "1") (jstr "shoes") (jstr "BROAD")])
    (Some []) (Some []) (Some []).

(** The keyword report arrives and the campaign negative query raises. *)
Definition campaignNegativesFail : dataSource :=
  DataSource (Some [])
    (Some [KeywordRow (jstr "1") (jstr "Summer") (jstr "10") (jstr "Boots")
                      (jstr "shoes") (jstr "BROAD") (JBool false)])
    (Some []) None (Some []) (Some []) (Some []).

(** An ad group with a positive whose text is a single space and a negative
    [shoes]. *)
Definition blankKeyword : dataSource :=
  DataSource (Some [])
    (Some [KeywordRow (jstr "1") (jstr "Summer") (jstr "10") (jstr "Boots")
                      (jstr " ") (jstr "BROAD") (JBool false);
           KeywordRow (jstr "1") (jstr "Summer") (jstr "10") (jstr "Boots")
                      (jstr "shoes") (jstr "BROAD") (JBool true)])
    (Some []) (Some []) (Some []) (Some []) (Some []).

(** ** Facts about objects *)

Section ObjectFacts.
Context {V : Type}.

Lemma insertIndexed_perm (i : N) (e : str * V) (l : list (N * (str * V))) :
  insertIndexed i e l ≡ₚ (i, e) :: l.
Proof.
  induction l as [|[j e'] l IH]; simpl; [done|].
  destruct (i <=? j); [done|]. rewrite IH. apply perm_swap.
Qed.

Lemma insertIndexed_sorted (i : N) (e : str * V) (l : list (N * (str * V))) :
  Sorted (fun a b => a.1 <= b.1) l ->
  Sorted (fun a b => a.1 <= b.1) (insertIndexed i e l).
Proof.
  induction 1 as [|[j e'] l Hl IH Hhd]; simpl.
  - by repeat constructor.
  - destruct (N.leb_spec i j).
    + constructor; [by constructor|]. by constructor.
    + constructor; [done|].
      destruct l as [|[j' e''] l]; simpl.
      * constructor. simpl. lia.
      * destruct (N.leb_spec i j'); constructor; simpl; [lia|].
        by inversion Hhd.
Qed.

Lemma indexedEntries_sorted (o : obj V) :
  Sorted (fun a b => a.1 <= b.1) (indexedEntries o).
Proof.
  induction o as [|e o IH]; simpl; [constructor|].
  destruct (arrayIndex e.1); [by apply insertIndexed_sorted | done].
Qed.

(** The loop [for (const k in o)] visits every entry of [o] exactly once. *)
Lemma forIn_permutation (o : obj V) : forIn o ≡ₚ o.
Proof.
  unfold forIn.
  transitivity (filter (fun e => arrayIndex e.1 <> None) o
                ++ filter (fun e => arrayIndex e.1 = None) o).
  - apply Permutation_app; [|done].
    induction o as [|e o IH]; [done|]. cbn [indexedEntries foldr].
    fold (indexedEntries o). cbn [filter list_filter].
    destruct (arrayIndex e.1) as [i|] eqn:E.
    + rewrite insertIndexed_perm. simpl. by rewrite IH.
    + done.
  - rewrite Permutation_app_comm. apply filter_app_complement.
Qed.

End ObjectFacts.

(** ** Facts about the string operations *)

Section StringFacts.

Lemma startsWith_prefix (p s : str) :
  JS.startsWith p s = true <-> exists k, s = p ++ k.
Proof.
  revert s. induction p as [|a p IH]; intros s; simpl.
  - split; [intros _; by exists s | done].
  - destruct s as [|b s].
    + split; [done | intros [k Hk]; discriminate].
    + rewrite andb_true_iff, N.eqb_eq, IH. split.
      * intros [-> [k ->]]. by exists k.
      * intros [k Hk]. injection Hk as -> ->. eauto.
Qed.

Lemma startsWith_app (p k : str) : JS.startsWith p (p ++ k) = true.
Proof. apply startsWith_prefix. by exists k. Qed.

Lemma indexOfFrom_range (needle hay : str) (i : Z) :
  (0 <= i)%Z ->
  JS.indexOfFrom needle hay i = (-1)%Z \/ (i <= JS.indexOfFrom needle hay i)%Z.
Proof.
  revert i. induction hay as [|c hay IH]; intros i Hi; simpl.
  - destruct (JS.startsWith needle []); [right; lia | by left].
  - destruct (JS.startsWith needle (c :: hay)); [right; lia|].
    destruct (IH (i + 1)%Z) as [->|]; [lia | by left | right; lia].
Qed.

Lemma indexOfFrom_found (needle hay : str) (i : Z) :
  (0 <= i)%Z ->
  JS.indexOfFrom needle hay i <> (-1)%Z <-> occursIn needle hay.
Proof.
  revert i. induction hay as [|c hay IH]; intros i Hi; simpl.
  - destruct (JS.startsWith needle []) eqn:E.
    + split; [|lia]. intros _. apply startsWith_prefix in E as [k Hk].
      exists [], k. done.
    + split; [done|]. intros (pre & post & Heq).
      destruct pre; [|discriminate]. simpl in Heq.
      assert (JS.startsWith needle [] = true) by
        (apply startsWith_prefix; eauto).
      congruence.
  - destruct (JS.startsWith needle (c :: hay)) eqn:E.
    + split; [|lia]. intros _. apply startsWith_prefix in E as [k Hk].
      exists [], k. done.
    + rewrite IH by lia. split.
      * intros (pre & post & ->). by exists (c :: pre), post.
      * intros (pre & post & Heq). destruct pre as [|c' pre].
        -- simpl in Heq.
           assert (JS.startsWith needle (c :: hay) = true) by
             (apply startsWith_prefix; eauto).
           congruence.
        -- injection Heq as -> ->. by exists pre, post.
Qed.

Lemma includes_occursIn (hay needle : str) :
  JS.includes hay needle = true <-> occursIn needle hay.
Proof.
  unfold JS.includes, JS.indexOf.
  rewrite negb_true_iff, Z.eqb_neq. by apply indexOfFrom_found.
Qed.

Lemma split_nonempty (sep : code) (s : str) : JS.split sep s <> [].
Proof. destruct s as [|c s]; simpl; [done|]. by repeat case_match. Qed.

Lemma join_cons (sep x : str) (r : list str) :
  r <> [] -> JS.join sep (x :: r) = x ++ sep ++ JS.join sep r.
Proof. by destruct r. Qed.

Lemma join_split (sep : code) (s : str) :
  JS.join [sep] (JS.split sep s) = s.
Proof.
  induction s as [|c s IH]; [done|]. simpl.
  destruct (N.eqb_spec c sep) as [->|Hne].
  - rewrite join_cons by apply split_nonempty. simpl. by rewrite IH.
  - pose proof (split_nonempty sep s) as Hs.
    destruct (JS.split sep s) as [|h r] eqn:E; [done|].
    destruct r as [|h' r].
    + simpl in *. by rewrite IH.
    + rewrite join_cons by done. rewrite join_cons in IH by done.
      change ((c :: h) ++ [sep] ++ JS.join [sep] (h' :: r))
        with (c :: (h ++ [sep] ++ JS.join [sep] (h' :: r))).
      by rewrite IH.
Qed.

Lemma split_app_sep (sep : code) (t rest : str) :
  Forall (fun c => c <> sep) t ->
  JS.split sep (t ++ sep :: rest) = t :: JS.split sep rest.
Proof.
  induction 1 as [|c t Hc _ IH]; simpl.
  - by rewrite N.eqb_refl.
  - destruct (N.eqb_spec c sep); [done|]. by rewrite IH.
Qed.

Lemma split_no_sep (sep : code) (t : str) :
  Forall (fun c => c <> sep) t -> JS.split sep t = [t].
Proof.
  induction 1 as [|c t Hc _ IH]; simpl; [done|].
  destruct (N.eqb_spec c sep); [done|]. by rewrite IH.
Qed.

Lemma split_join (sep : code) (ts : list str) :
  ts <> [] -> Forall (Forall (fun c => c <> sep)) ts ->
  JS.split sep (JS.join [sep] ts) = ts.
Proof.
  induction ts as [|t ts IH]; [done|]. intros _ Hts.
  apply Forall_cons in Hts as [Ht Hts].
  destruct ts as [|t' ts].
  - simpl. by apply split_no_sep.
  - rewrite join_cons by done.
    change ([sep] ++ ?x) with (sep :: x).
    rewrite split_app_sep by done. f_equal. by apply IH.
Qed.

End StringFacts.

Section TrimFacts.

Lemma trimStart_fixed (s : str) : startsWs s = false -> JS.trimStart s = s.
Proof. destruct s as [|c s]; simpl; [done|]. by intros ->. Qed.

Lemma trimStart_startsWs (s : str) : startsWs (JS.trimStart s) = false.
Proof.
  induction s as [|c s IH]; simpl; [done|].
  destruct (JS.isWhitespace c) eqn:E; [done|]. simpl. by rewrite E.
Qed.

Lemma trimStart_app (a b : str) :
  JS.trimStart (a ++ b)
  = if bool_decide (JS.trimStart a = []) then JS.trimStart b
    else JS.trimStart a ++ b.
Proof.
  induction a as [|c a IH]; simpl; [done|].
  destruct (JS.isWhitespace c); [done|]. by rewrite bool_decide_false.
Qed.

Lemma trimEnd_nil : JS.trimEnd [] = [].
Proof. done. Qed.

Lemma trimEnd_cons (c : code) (t : str) :
  JS.trimEnd (c :: t)
  = if JS.isWhitespace c && bool_decide (JS.trimEnd t = []) then []
    else c :: JS.trimEnd t.
Proof.
  unfold JS.trimEnd. simpl rev at 2. rewrite trimStart_app.
  case_bool_decide as E.
  - rewrite E. simpl. destruct (JS.isWhitespace c); done.
  - rewrite rev_app_distr. simpl.
    rewrite bool_decide_false, andb_false_r; [done|].
    intros E'. apply E. apply (f_equal (@rev code)) in E'.
    by rewrite rev_involutive in E'.
Qed.

Lemma trimEnd_fixed (s : str) :
  startsWs (rev s) = false -> JS.trimEnd s = s.
Proof.
  intros E. unfold JS.trimEnd. rewrite trimStart_fixed by done.
  apply rev_involutive.
Qed.

Lemma trim_fixed (s : str) :
  startsWs s = false -> startsWs (rev s) = false -> JS.trim s = s.
Proof.
  intros E1 E2. unfold JS.trim. rewrite trimStart_fixed by done.
  by apply trimEnd_fixed.
Qed.

Lemma trimStart_collapse (b : bool) (s : str) :
  JS.trimStart (JS.collapseFrom b s) = JS.collapseFrom false (JS.trimStart s).
Proof.
  revert b. induction s as [|c s IH]; intros b; simpl; [done|].
  destruct (JS.isWhitespace c) eqn:E.
  - destruct b; simpl; by rewrite IH.
  - simpl. by rewrite !E.
Qed.

End TrimFacts.

Section TokenFacts.

Lemma nonEmptyTokens_nil_cons (l : list str) :
  nonEmptyTokens ([] :: l) = nonEmptyTokens l.
Proof. unfold nonEmptyTokens. rewrite filter_cons. by case_decide. Qed.

Lemma nonEmptyTokens_cons (c : code) (h : str) (l : list str) :
  nonEmptyTokens ((c :: h) :: l) = (c :: h) :: nonEmptyTokens l.
Proof. unfold nonEmptyTokens. rewrite filter_cons. by case_decide. Qed.

Lemma wsSplit_nonempty (s : str) : wsSplit s <> [].
Proof. destruct s as [|c s]; simpl; [done|]. by repeat case_match. Qed.

Lemma wsSplit_nonWs (s : str) : Forall (fun t => nonWs t = true) (wsSplit s).
Proof.
  induction s as [|c s IH]; simpl.
  - by constructor.
  - destruct (JS.isWhitespace c) eqn:E.
    + by constructor.
    + destruct (wsSplit s) as [|h r].
      * constructor; [|done]. simpl. by rewrite E.
      * apply Forall_cons in IH as [Hh Hr]. constructor; [|done].
        simpl. by rewrite E.
Qed.

Lemma wsTokens_isToken (s : str) :
  Forall (fun t => isToken t = true) (wsTokens s).
Proof.
  unfold wsTokens. pose proof (wsSplit_nonWs s) as Hs.
  induction Hs as [|t l Ht _ IH]; [constructor|].
  destruct t as [|c t].
  - by rewrite nonEmptyTokens_nil_cons.
  - rewrite nonEmptyTokens_cons. constructor; [|done].
    unfold isToken. by rewrite bool_decide_false.
Qed.

Lemma wsTokens_ws (c : code) (t : str) :
  JS.isWhitespace c = true -> wsTokens (c :: t) = wsTokens t.
Proof.
  intros E. unfold wsTokens. simpl. rewrite E.
  apply nonEmptyTokens_nil_cons.
Qed.

Lemma wsSplit_head_nil (t : str) :
  (t = [] \/ startsWs t = true) -> exists r, wsSplit t = [] :: r.
Proof.
  intros [->|E]; [by exists []|].
  destruct t as [|d t]; [done|]. simpl in *. rewrite E. eauto.
Qed.

Lemma wsSplit_head_cons (d : code) (t : str) :
  JS.isWhitespace d = false -> exists h r, wsSplit (d :: t) = (d :: h) :: r.
Proof.
  intros E. simpl. rewrite E. destruct (wsSplit t); eauto.
Qed.

Lemma wsTokens_cons (c : code) (t : str) :
  JS.isWhitespace c = false ->
  wsTokens (c :: t)
  = match wsSplit t with
    | h :: r => (c :: h) :: nonEmptyTokens r
    | [] => [[c]]
    end.
Proof.
  intros E. unfold wsTokens. cbn [wsSplit]. rewrite E.
  destruct (wsSplit t) as [|h r]; by rewrite nonEmptyTokens_cons.
Qed.

Lemma join_wsTokens_cons (c : code) (t : str) :
  JS.isWhitespace c = false ->
  JS.join [SPACE] (wsTokens (c :: t)) = c :: lead t ++ JS.join [SPACE] (wsTokens t).
Proof.
  intros E. rewrite wsTokens_cons by done. unfold lead.
  destruct t as [|d t]; [done|].
  cbn [startsWs]. destruct (JS.isWhitespace d) eqn:Ed.
  - destruct (wsSplit_head_nil (d :: t)) as [r Hr]; [by right|].
    unfold wsTokens. rewrite Hr, nonEmptyTokens_nil_cons.
    destruct (nonEmptyTokens r) as [|x l] eqn:Ef; done.
  - destruct (wsSplit_head_cons d t Ed) as (h & r & Hr).
    unfold wsTokens. rewrite Hr, nonEmptyTokens_cons.
    destruct (nonEmptyTokens r) as [|x l] eqn:Ef; done.
Qed.

Lemma join_tokens_nil (ts : list str) :
  Forall (fun t => isToken t = true) ts ->
  JS.join [SPACE] ts = [] -> ts = [].
Proof.
  intros Hts Hj. destruct ts as [|t ts]; [done|].
  apply Forall_cons in Hts as [Ht _].
  unfold isToken in Ht. apply andb_prop in Ht as [Ht _].
  apply negb_true_iff, bool_decide_eq_false in Ht.
  destruct t; [done|]. destruct ts; simpl in Hj; discriminate.
Qed.

Lemma trimEnd_collapse (t : str) :
  JS.trimEnd (JS.collapseFrom true t) = JS.join [SPACE] (wsTokens t)
  /\ JS.trimEnd (JS.collapseFrom false t)
     = lead t ++ JS.join [SPACE] (wsTokens t).
Proof.
  induction t as [|c t [IH1 IH2]]; [done|].
  simpl JS.collapseFrom. destruct (JS.isWhitespace c) eqn:E.
  - rewrite wsTokens_ws by done. split; [done|].
    rewrite trimEnd_cons, IH1. unfold lead. simpl startsWs. rewrite E.
    rewrite wsTokens_ws by done. simpl andb.
    case_bool_decide as Ej.
    + apply join_tokens_nil in Ej; [|apply wsTokens_isToken].
      rewrite Ej. by rewrite bool_decide_true.
    + rewrite bool_decide_false; [done|]. intros Ew. by rewrite Ew in Ej.
  - rewrite trimEnd_cons, E, IH2. simpl andb.
    rewrite join_wsTokens_cons by done.
    split; [done|].
    assert (lead (c :: t) = []) as ->; [|done].
    unfold lead. cbn [startsWs]. by rewrite E.
Qed.

Lemma wsTokens_trimStart (s : str) : wsTokens (JS.trimStart s) = wsTokens s.
Proof.
  induction s as [|c s IH]; simpl; [done|].
  destruct (JS.isWhitespace c) eqn:E; [|done].
  by rewrite wsTokens_ws.
Qed.

(** Collapsing and trimming leaves the tokens joined by single spaces. *)
Lemma trim_collapse_tokens (s : str) :
  JS.trim (JS.collapseWhitespace s) = JS.join [SPACE] (wsTokens s).
Proof.
  unfold JS.trim, JS.collapseWhitespace.
  rewrite trimStart_collapse.
  destruct (trimEnd_collapse (JS.trimStart s)) as [_ ->].
  unfold lead. rewrite trimStart_startsWs. simpl.
  by rewrite wsTokens_trimStart.
Qed.

End TokenFacts.

Section NormalFacts.

Lemma trimStart_idem (s : str) : JS.trimStart (JS.trimStart s) = JS.trimStart s.
Proof. apply trimStart_fixed, trimStart_startsWs. Qed.

Lemma trimEnd_idem (s : str) : JS.trimEnd (JS.trimEnd s) = JS.trimEnd s.
Proof. unfold JS.trimEnd. by rewrite rev_involutive, trimStart_idem. Qed.

Lemma trimEnd_startsWs (s : str) :
  startsWs s = false -> startsWs (JS.trimEnd s) = false.
Proof.
  destruct s as [|c s]; [done|]. simpl. intros E.
  rewrite trimEnd_cons, E. simpl. done.
Qed.

Lemma trim_idem (s : str) : JS.trim (JS.trim s) = JS.trim s.
Proof.
  unfold JS.trim.
  rewrite (trimStart_fixed (JS.trimEnd _)).
  - apply trimEnd_idem.
  - apply trimEnd_startsWs, trimStart_startsWs.
Qed.

Lemma isToken_nonempty (t : str) : isToken t = true -> t <> [].
Proof.
  unfold isToken. intros [E _]%andb_prop.
  by apply negb_true_iff, bool_decide_eq_false in E.
Qed.

Lemma isToken_nonWs (t : str) : isToken t = true -> nonWs t = true.
Proof. unfold isToken. by intros [_ E]%andb_prop. Qed.

Lemma nonWs_no_space (t : str) :
  nonWs t = true -> Forall (fun c => c <> SPACE) t.
Proof.
  unfold nonWs. rewrite forallb_forall. intros Ht.
  apply Forall_forall. intros c Hc ->.
  apply list_elem_of_In, Ht in Hc. done.
Qed.

Lemma tokens_no_space (ts : list str) :
  Forall (fun t => isToken t = true) ts ->
  Forall (Forall (fun c => c <> SPACE)) ts.
Proof.
  intros Hts. eapply Forall_impl; [done|].
  intros t Ht. by apply nonWs_no_space, isToken_nonWs.
Qed.

Lemma forallb_Forall_true {A} (f : A -> bool) (l : list A) :
  forallb f l = true <-> Forall (fun x => f x = true) l.
Proof.
  induction l as [|x l IH]; simpl.
  - split; [constructor | done].
  - rewrite andb_true_iff, IH, Forall_cons. done.
Qed.

(** A normal text is its tokens joined by single spaces. *)
Lemma isNormalRaw_join (ts : list str) :
  ts <> [] -> Forall (fun t => isToken t = true) ts ->
  isNormalRaw (JS.join [SPACE] ts) = true.
Proof.
  intros Hne Hts. unfold isNormalRaw.
  rewrite split_join; [|done|by apply tokens_no_space].
  by apply forallb_Forall_true.
Qed.

Lemma isNormalRaw_tokens (r : str) :
  isNormalRaw r = true ->
  Forall (fun t => isToken t = true) (JS.split SPACE r).
Proof. unfold isNormalRaw. apply forallb_Forall_true. Qed.

Lemma isNormalRaw_nonempty (r : str) : isNormalRaw r = true -> r <> [].
Proof. intros Hr ->. done. Qed.

Lemma wsSplit_nonWs_fixed (t : str) : nonWs t = true -> wsSplit t = [t].
Proof.
  induction t as [|c t IH]; simpl; [done|].
  intros [Hc Ht]%andb_prop. apply negb_true_iff in Hc.
  by rewrite Hc, IH.
Qed.

Lemma wsSplit_app_space (t rest : str) :
  nonWs t = true -> wsSplit (t ++ SPACE :: rest) = t :: wsSplit rest.
Proof.
  induction t as [|c t IH]; simpl; [done|].
  intros [Hc Ht]%andb_prop. apply negb_true_iff in Hc.
  by rewrite Hc, IH.
Qed.

Lemma wsTokens_join (ts : list str) :
  Forall (fun t => isToken t = true) ts ->
  wsTokens (JS.join [SPACE] ts) = ts.
Proof.
  induction 1 as [|t ts Ht Hts IH]; [done|].
  pose proof (isToken_nonempty _ Ht) as Hne.
  pose proof (isToken_nonWs _ Ht) as Hws.
  destruct t as [|c t]; [done|].
  destruct ts as [|t' ts].
  - unfold wsTokens. cbn [JS.join]. rewrite wsSplit_nonWs_fixed by done.
    by rewrite nonEmptyTokens_cons.
  - rewrite join_cons by done. change ([SPACE] ++ ?x) with (SPACE :: x).
    unfold wsTokens. rewrite wsSplit_app_space by done.
    rewrite nonEmptyTokens_cons. f_equal. apply IH.
Qed.

(** On a normal text the whitespace-delimited tokens are the words between
    the spaces. *)
Lemma wsTokens_normal (r : str) :
  isNormalRaw r = true -> wsTokens r = JS.split SPACE r.
Proof.
  intros Hr. rewrite <- (join_split SPACE r) at 1.
  by apply wsTokens_join, isNormalRaw_tokens.
Qed.

Lemma normal_trim_collapse (r : str) :
  isNormalRaw r = true -> JS.trim (JS.collapseWhitespace r) = r.
Proof.
  intros Hr. rewrite trim_collapse_tokens, wsTokens_normal by done.
  apply join_split.
Qed.

Lemma normal_trim (r : str) : isNormalRaw r = true -> JS.trim r = r.
Proof.
  intros Hr. rewrite <- (normal_trim_collapse r) at 1 by done.
  rewrite trim_idem. by apply normal_trim_collapse.
Qed.

Lemma trim_collapse_normal (s : str) :
  JS.trim (JS.collapseWhitespace s) <> [] ->
  isNormalRaw (JS.trim (JS.collapseWhitespace s)) = true.
Proof.
  rewrite trim_collapse_tokens. intros Hne.
  apply isNormalRaw_join; [|apply wsTokens_isToken].
  intros E. by rewrite E in Hne.
Qed.

Context `{CaseConv}.

Lemma lower_join (ts : list str) :
  ts <> [] ->
  toLowerCase (JS.join [SPACE] ts) = JS.join [SPACE] (map toLowerCase ts).
Proof.
  induction ts as [|t ts IH]; [done|]. intros _.
  destruct ts as [|t' ts]; [done|].
  rewrite join_cons by done. change ([SPACE] ++ ?x) with (SPACE :: x).
  rewrite lower_space, IH by done.
  change (map toLowerCase (t :: t' :: ts))
    with (toLowerCase t :: map toLowerCase (t' :: ts)).
  by rewrite join_cons.
Qed.

Lemma lower_token (t : str) :
  isToken t = true -> isToken (toLowerCase t) = true.
Proof.
  intros Ht. unfold isToken. apply andb_true_intro. split.
  - apply negb_true_iff, bool_decide_eq_false.
    by apply lower_nonempty, isToken_nonempty.
  - by apply lower_nonws, isToken_nonWs.
Qed.

Lemma lower_normal (r : str) :
  isNormalRaw r = true -> isNormalRaw (toLowerCase r) = true.
Proof.
  intros Hr. pose proof (isNormalRaw_tokens r Hr) as Hts.
  rewrite <- (join_split SPACE r).
  rewrite lower_join by apply split_nonempty.
  apply isNormalRaw_join.
  - pose proof (split_nonempty SPACE r). by destruct (JS.split SPACE r).
  - apply Forall_map. eapply Forall_impl; [done|]. apply lower_token.
Qed.

(** The cleaned text of either script is empty or normal. *)
Lemma lower_trim_collapse_normal (s : str) :
  toLowerCase (JS.trim (JS.collapseWhitespace s)) <> [] ->
  isNormalRaw (toLowerCase (JS.trim (JS.collapseWhitespace s))) = true.
Proof.
  intros Hne. apply lower_normal, trim_collapse_normal.
  intros E. rewrite E in Hne. by rewrite lower_nil in Hne.
Qed.

End NormalFacts.

(** ** The blocking rule *)

Section BlockingRule.

Lemma match_types_distinct : EXACT <> PHRASE /\ EXACT <> BROAD /\ PHRASE <> BROAD.
Proof. repeat split; discriminate. Qed.

Lemma occursIn_length (needle hay : str) :
  occursIn needle hay -> (length needle <= length hay)%nat.
Proof. intros (pre & post & ->). rewrite !length_app. lia. Qed.

Lemma padded_occurs_nonempty (k1 k2 : str) :
  k1 <> [] -> occursIn (SPACE :: k1 ++ [SPACE]) (SPACE :: k2 ++ [SPACE]) ->
  k2 <> [].
Proof.
  intros Hk1 Hocc%occursIn_length ->. destruct k1; [done|].
  simpl in Hocc. rewrite length_app in Hocc. simpl in Hocc. lia.
Qed.

Lemma mcc_isSubsequence_spec (k1 k2 : str) :
  k1 <> [] ->
  Mcc.isSubsequence k1 k2 = true
  <-> occursIn (SPACE :: k1 ++ [SPACE]) (SPACE :: k2 ++ [SPACE]).
Proof.
  intros Hk1. unfold Mcc.isSubsequence.
  rewrite bool_decide_false by done. case_bool_decide as Hk2.
  - split; [done|]. intros Hocc.
    by apply padded_occurs_nonempty in Hocc.
  - apply includes_occursIn.
Qed.

Lemma single_isSubsequence_spec (k1 k2 : str) :
  k1 <> [] ->
  Single.isSubsequence k1 k2 = true
  <-> occursIn (SPACE :: k1 ++ [SPACE]) (SPACE :: k2 ++ [SPACE]).
Proof.
  intros Hk1. unfold Single.isSubsequence.
  rewrite bool_decide_false by done. case_bool_decide as Hk2; simpl.
  - split; [done|]. intros Hocc.
    by apply padded_occurs_nonempty in Hocc.
  - apply includes_occursIn.
Qed.

Lemma nonEmptyTokens_tokens (l : list str) :
  Forall (fun t => isToken t = true) l -> nonEmptyTokens l = l.
Proof.
  induction 1 as [|t l Ht _ IH]; [done|].
  apply isToken_nonempty in Ht. destruct t; [done|].
  by rewrite nonEmptyTokens_cons, IH.
Qed.

Lemma every_in_set (l1 l2 : list str) :
  forallb (fun token => bool_decide (token ∈ (list_to_set l2 : gset str))) l1
  = true
  <-> forall t, t ∈ l1 -> t ∈ l2.
Proof.
  rewrite forallb_forall. split.
  - intros Hall t Ht. apply list_elem_of_In, Hall in Ht.
    apply bool_decide_eq_true in Ht. by apply elem_of_list_to_set in Ht.
  - intros Hall t Ht. apply bool_decide_eq_true, elem_of_list_to_set.
    by apply Hall, list_elem_of_In.
Qed.

Lemma mcc_hasAllTokens_normal (k1 k2 : str) :
  isNormalRaw k1 = true -> isNormalRaw k2 = true ->
  Mcc.hasAllTokens k1 k2 = true
  <-> forall t, t ∈ wsTokens k1 -> t ∈ wsTokens k2.
Proof.
  intros H1 H2. unfold Mcc.hasAllTokens.
  rewrite !bool_decide_false by by apply isNormalRaw_nonempty.
  rewrite !nonEmptyTokens_tokens by by apply isNormalRaw_tokens.
  rewrite !wsTokens_normal by done.
  pose proof (split_nonempty SPACE k1) as Hne.
  rewrite bool_decide_false by by destruct (JS.split SPACE k1).
  apply every_in_set.
Qed.

Lemma single_hasAllTokens_normal (k1 k2 : str) :
  isNormalRaw k1 = true -> isNormalRaw k2 = true ->
  Single.hasAllTokens k1 k2 = true
  <-> forall t, t ∈ wsTokens k1 -> t ∈ wsTokens k2.
Proof.
  intros H1 H2. unfold Single.hasAllTokens.
  rewrite !bool_decide_false by by apply isNormalRaw_nonempty.
  rewrite !wsTokens_normal by done. simpl.
  apply every_in_set.
Qed.

(** C1: a negative of match type EXACT blocks a positive exactly when the
    two raw texts are the same string, in both scripts, and the match type
    (and display text) of the positive plays no part. *)
Theorem exact_negative_blocks_iff_same_raw (negative positive : keyword) :
  matchType negative = EXACT ->
  (Mcc.negativeBlocksPositive (Some negative) (Some positive) = true
   <-> raw negative = raw positive)
  /\ (Single.negativeBlocksPositive (Some negative) (Some positive) = Ok true
      <-> raw negative = raw positive)
  /\ (forall d m,
        Mcc.negativeBlocksPositive (Some negative)
          (Some (Keyword d (raw positive) m))
        = Mcc.negativeBlocksPositive (Some negative) (Some positive)
        /\ Single.negativeBlocksPositive (Some negative)
             (Some (Keyword d (raw positive) m))
           = Single.negativeBlocksPositive (Some negative) (Some positive)).
Proof.
  intros Hm. unfold Mcc.negativeBlocksPositive, Single.negativeBlocksPositive.
  rewrite !bool_decide_true by done. simpl. repeat split.
  - by intros ->%bool_decide_eq_true.
  - intros ->. by apply bool_decide_eq_true.
  - intros [= ->%bool_decide_eq_true]. done.
  - intros ->. by rewrite bool_decide_true.
Qed.

Lemma exact_negative_blocks_witness :
  Mcc.negativeBlocksPositive
    (Some (Keyword (js "[red shoes]") (js "red shoes") EXACT))
    (Some (Keyword (js "red shoes") (js "red shoes") BROAD)) = true
  /\ Mcc.negativeBlocksPositive
       (Some (Keyword (js "[red shoes]") (js "red shoes") EXACT))
       (Some (Keyword (js "red shoes cheap") (js "red shoes cheap") BROAD))
     = false.
Proof.
  split.
  - apply (exact_negative_blocks_iff_same_raw
             (Keyword (js "[red shoes]") (js "red shoes") EXACT)
             (Keyword (js "red shoes") (js "red shoes") BROAD)); reflexivity.
  - apply not_true_is_false. intros Hb.
    apply (exact_negative_blocks_iff_same_raw
             (Keyword (js "[red shoes]") (js "red shoes") EXACT)
             (Keyword (js "red shoes cheap") (js "red shoes cheap") BROAD))
      in Hb; [discriminate | reflexivity].
Defined.

(** C2: a negative of match type PHRASE blocks an EXACT positive exactly
    when the two raw texts are equal, and blocks any other positive exactly
    when the negative's raw text padded with a space on each side occurs in
    the positive's raw text padded the same way; the raw text of a normalized
    negative is not empty. *)
Theorem phrase_negative_blocks_spec (negative positive : keyword) :
  matchType negative = PHRASE -> raw negative <> [] ->
  (matchType positive = EXACT ->
     (Mcc.negativeBlocksPositive (Some negative) (Some positive) = true
      <-> raw negative = raw positive)
     /\ (Single.negativeBlocksPositive (Some negative) (Some positive) = Ok true
         <-> raw negative = raw positive))
  /\ (matchType positive <> EXACT ->
        (Mcc.negativeBlocksPositive (Some negative) (Some positive) = true
         <-> occursIn (SPACE :: raw negative ++ [SPACE])
                      (SPACE :: raw positive ++ [SPACE]))
        /\ (Single.negativeBlocksPositive (Some negative) (Some positive)
            = Ok true
            <-> occursIn (SPACE :: raw negative ++ [SPACE])
                         (SPACE :: raw positive ++ [SPACE]))).
Proof.
  intros Hm Hraw.
  destruct match_types_distinct as (Hep & _ & _).
  unfold Mcc.negativeBlocksPositive, Single.negativeBlocksPositive.
  rewrite !(bool_decide_false (matchType negative = EXACT)) by congruence.
  rewrite !(bool_decide_true (matchType negative = PHRASE)) by done.
  split; intros Hp.
  - rewrite !bool_decide_true by done. repeat split.
    + by intros ->%bool_decide_eq_true.
    + intros ->. by apply bool_decide_eq_true.
    + intros [= ->%bool_decide_eq_true]. done.
    + intros ->. by rewrite bool_decide_true.
  - rewrite !(bool_decide_false (matchType positive = EXACT)) by done. split.
    + by apply mcc_isSubsequence_spec.
    + rewrite <- single_isSubsequence_spec by done.
      split; [by intros [= ->] | by intros ->].
Qed.

Lemma phrase_negative_blocks_witness :
  Mcc.negativeBlocksPositive
    (Some (Keyword (DQUOTE :: js "running shoes" ++ [DQUOTE])
                   (js "running shoes") PHRASE))
    (Some (Keyword (js "buy running shoes online")
                   (js "buy running shoes online") BROAD)) = true
  /\ Mcc.negativeBlocksPositive
       (Some (Keyword (DQUOTE :: js "running shoes" ++ [DQUOTE])
                      (js "running shoes") PHRASE))
       (Some (Keyword (js "[running shoes]") (js "running shoes") EXACT))
     = true.
Proof.
  split.
  - apply (proj2 (phrase_negative_blocks_spec
             (Keyword (DQUOTE :: js "running shoes" ++ [DQUOTE])
                      (js "running shoes") PHRASE)
             (Keyword (js "buy running shoes online")
                      (js "buy running shoes online") BROAD)
             eq_refl ltac:(discriminate)));
      [discriminate|].
    exists (js " buy"), (js "online "). reflexivity.
  - apply (proj1 (phrase_negative_blocks_spec
             (Keyword (DQUOTE :: js "running shoes" ++ [DQUOTE])
                      (js "running shoes") PHRASE)
             (Keyword (js "[running shoes]") (js "running shoes") EXACT)
             eq_refl ltac:(discriminate)));
      reflexivity.
Defined.

Lemma wsTokens_nil_ws (r : str) :
  wsTokens r = [] -> Forall (fun c => JS.isWhitespace c = true) r.
Proof.
  induction r as [|c t IH]; [constructor|].
  destruct (JS.isWhitespace c) eqn:E.
  - rewrite wsTokens_ws by done. intros Ht. constructor; [done|by apply IH].
  - rewrite wsTokens_cons by done. by destruct (wsSplit t).
Qed.

Lemma split_ws_pieces (r : str) :
  Forall (fun c => JS.isWhitespace c = true) r ->
  Forall (fun t => isToken t = false) (JS.split SPACE r).
Proof.
  induction 1 as [|c t Hc _ IH]; simpl; [by repeat constructor|].
  destruct (c =? SPACE); [by constructor|].
  assert (forall h, isToken (c :: h) = false) as Hch.
  { intros h. unfold isToken, nonWs. cbn [forallb]. rewrite Hc.
    apply andb_false_r. }
  destruct (JS.split SPACE t) as [|h rest].
  - by repeat constructor.
  - apply Forall_cons in IH as [_ IH]. by constructor.
Qed.

Lemma nonEmptyTokens_split_onlySpaces (r : str) :
  nonEmptyTokens (JS.split SPACE r) = [] <-> onlySpaces r = true.
Proof.
  induction r as [|c t IH]; simpl; [done|].
  destruct (c =? SPACE); simpl.
  - by rewrite nonEmptyTokens_nil_cons.
  - destruct (JS.split SPACE t); by rewrite nonEmptyTokens_cons.
Qed.

Lemma forallb_all_fail {A} (f : A -> bool) (l : list A) :
  l <> [] -> Forall (fun x => f x = false) l -> forallb f l = false.
Proof.
  intros Hne Hl. destruct Hl as [|x l Hx _]; [done|]. simpl. by rewrite Hx.
Qed.

(** No piece of a text without tokens is a word of a normalized text. *)
Lemma ws_pieces_not_tokens (r p : str) (l : list str) :
  Forall (fun c => JS.isWhitespace c = true) r ->
  Forall (fun t => isToken t = true) (JS.split SPACE p) ->
  (forall t, t ∈ l -> t ∈ JS.split SPACE r) ->
  Forall (fun token =>
            bool_decide (token ∈ (list_to_set (JS.split SPACE p) : gset str))
            = false) l.
Proof.
  intros Hr Hp Hl. apply Forall_forall. intros t Ht.
  apply bool_decide_eq_false. rewrite elem_of_list_to_set. intros Hin.
  apply Hl in Ht.
  pose proof (proj1 (Forall_forall _ _) (split_ws_pieces r Hr) t Ht) as Hf.
  pose proof (proj1 (Forall_forall _ _) Hp t Hin) as Ht'. congruence.
Qed.

(** A needle without tokens: the multi-account [hasAllTokens] finds it
    exactly when it is empty or made of spaces, the single-account one
    never. *)
Lemma hasAllTokens_no_tokens (k1 k2 : str) :
  wsTokens k1 = [] -> isNormalRaw k2 = true ->
  Mcc.hasAllTokens k1 k2 = onlySpaces k1
  /\ Single.hasAllTokens k1 k2 = false.
Proof.
  intros Hk1%wsTokens_nil_ws Hk2.
  pose proof (isNormalRaw_nonempty _ Hk2) as Hne2.
  pose proof (isNormalRaw_tokens _ Hk2) as Ht2.
  unfold Mcc.hasAllTokens, Single.hasAllTokens.
  destruct (bool_decide_reflect (k1 = [])) as [->|Hne1]; [done|].
  rewrite !(bool_decide_false (k2 = [])) by done. simpl orb. cbv iota.
  rewrite (nonEmptyTokens_tokens (JS.split SPACE k2)) by done.
  split.
  - destruct (onlySpaces k1) eqn:Eo.
    + apply nonEmptyTokens_split_onlySpaces in Eo. by rewrite Eo.
    + assert (nonEmptyTokens (JS.split SPACE k1) <> []) as Hne.
      { intros E%nonEmptyTokens_split_onlySpaces. congruence. }
      rewrite bool_decide_false by by destruct (nonEmptyTokens _).
      apply forallb_all_fail; [done|].
      apply (ws_pieces_not_tokens k1); [done|done|].
      intros t Ht. unfold nonEmptyTokens in Ht.
      by apply list_elem_of_filter in Ht as [_ Ht].
  - apply forallb_all_fail; [apply split_nonempty|].
    by apply (ws_pieces_not_tokens k1).
Qed.

(** C3, as the code has it: for normalized keywords, a negative of match
    type BROAD blocks a positive exactly when every whitespace-delimited
    token of the negative's raw text is among the whitespace-delimited
    tokens of the positive's raw text, whatever their order and position.
    A negative whose raw text has no token, which [normalizeKeyword] never
    returns, is not handled alike: the multi-account script lets it block
    when the raw text is empty or made of spaces, the single-account script
    never. *)
Theorem broad_negative_blocks_iff_token_subset (negative positive : keyword) :
  matchType negative = BROAD ->
  isNormalRaw (raw positive) = true ->
  (isNormalRaw (raw negative) = true ->
   (Mcc.negativeBlocksPositive (Some negative) (Some positive) = true
    <-> forall t, t ∈ wsTokens (raw negative) -> t ∈ wsTokens (raw positive))
   /\ (Single.negativeBlocksPositive (Some negative) (Some positive) = Ok true
       <-> forall t, t ∈ wsTokens (raw negative)
                     -> t ∈ wsTokens (raw positive)))
  /\ (wsTokens (raw negative) = [] ->
      Mcc.negativeBlocksPositive (Some negative) (Some positive)
      = onlySpaces (raw negative)
      /\ Single.negativeBlocksPositive (Some negative) (Some positive)
         = Ok false).
Proof.
  intros Hm Hp.
  destruct match_types_distinct as (_ & Heb & Hpb).
  unfold Mcc.negativeBlocksPositive, Single.negativeBlocksPositive.
  rewrite !(bool_decide_false (matchType negative = EXACT)) by congruence.
  rewrite !(bool_decide_false (matchType negative = PHRASE)) by congruence.
  rewrite !(bool_decide_true (matchType negative = BROAD)) by done.
  split.
  - intros Hn. split.
    + by apply mcc_hasAllTokens_normal.
    + rewrite <- single_hasAllTokens_normal by done.
      split; [by intros [= ->] | by intros ->].
  - intros Hn.
    destruct (hasAllTokens_no_tokens _ _ Hn Hp) as [-> ->]. done.
Qed.

Lemma broad_negative_blocks_witness :
  Mcc.negativeBlocksPositive
    (Some (Keyword (js "red shoes") (js "red shoes") BROAD))
    (Some (Keyword (js "shoes red cheap") (js "shoes red cheap") BROAD))
  = true
  /\ Single.negativeBlocksPositive
       (Some (Keyword (js "  ") (js "  ") BROAD))
       (Some (Keyword (js "shoes red cheap") (js "shoes red cheap") BROAD))
     = Ok false.
Proof.
  split.
  - apply (proj1 (broad_negative_blocks_iff_token_subset
                    (Keyword (js "red shoes") (js "red shoes") BROAD)
                    (Keyword (js "shoes red cheap") (js "shoes red cheap")
                             BROAD)
                    eq_refl eq_refl) eq_refl).
    intros t Ht. vm_compute in Ht. vm_compute.
    apply list_elem_of_In in Ht. apply list_elem_of_In.
    simpl in *. intuition.
  - apply (proj2 (broad_negative_blocks_iff_token_subset
                    (Keyword (js "  ") (js "  ") BROAD)
                    (Keyword (js "shoes red cheap") (js "shoes red cheap")
                             BROAD)
                    eq_refl eq_refl) eq_refl).
Defined.

(** C3 fails as stated: a negative whose raw text has no token is not found
    in every positive.  The single-account [hasAllTokens] returns [false]
    on the empty needle. *)
Lemma broad_no_tokens_counterexample :
  ~ (forall negative positive : keyword,
       matchType negative = BROAD ->
       isNormalRaw (raw positive) = true ->
       wsTokens (raw negative) = [] ->
       Single.negativeBlocksPositive (Some negative) (Some positive)
       = Ok true).
Proof.
  intros Hall.
  specialize (Hall (Keyword [] [] BROAD) (Keyword (js "a") (js "a") BROAD)
                   eq_refl eq_refl eq_refl).
  vm_compute in Hall. discriminate.
Qed.

(** The values: the empty needle and the needle of spaces are found by the
    multi-account script only, and a needle that is a tab by neither. *)
Lemma broad_no_tokens_values :
  Single.hasAllTokens [] (js "a") = false
  /\ Mcc.hasAllTokens [] (js "a") = true
  /\ Single.hasAllTokens (js "  ") (js "a") = false
  /\ Mcc.hasAllTokens (js "  ") (js "a") = true
  /\ wsTokens [9] = []
  /\ Single.hasAllTokens [9] (js "a") = false
  /\ Mcc.hasAllTokens [9] (js "a") = false.
Proof. repeat split; reflexivity. Qed.

End BlockingRule.

(** ** The normalizer *)

(** The three tests that [normalizeKeyword] makes before it cleans a string
    text [t] under a string match type [m]; [tac] closes the branches in
    which one of them rejects the input. *)
Ltac normalizer_guards t m tac :=
  simpl truthy; rewrite ?negb_involutive;
  destruct (bool_decide_reflect (t = [])); [tac|];
  destruct (bool_decide_reflect (JS.trim t = [])); [tac|];
  destruct (bool_decide_reflect (m = [])); [tac|];
  simpl.

Section NormalizerFacts.
Context `{CaseConv}.

Lemma mcc_normalize_inv (text mt : jsval) (k : keyword) :
  Mcc.normalizeKeyword text mt = Some k ->
  exists t m, text = JString t /\ mt = JString m
    /\ JS.trim t <> [] /\ m <> [] /\ Mcc.cleanRaw t m <> []
    /\ k = Keyword (displayOf (Mcc.cleanRaw t m) (canonicalMatchType m))
                   (Mcc.cleanRaw t m) (canonicalMatchType m).
Proof.
  unfold Mcc.normalizeKeyword.
  destruct text as [| | |t]; try done. destruct mt as [| | |m]; try done.
  normalizer_guards t m done.
  case_bool_decide as Er; [done|].
  intros [= <-]. by exists t, m.
Qed.

Lemma single_normalize_inv (text mt : jsval) (k : keyword) :
  Single.normalizeKeyword text mt = Some k ->
  exists t m, text = JString t /\ mt = JString m
    /\ JS.trim t <> [] /\ m <> [] /\ Single.cleanRaw t m <> []
    /\ k = Keyword (displayOf (Single.cleanRaw t m) (canonicalMatchType m))
                   (Single.cleanRaw t m) (canonicalMatchType m).
Proof.
  unfold Single.normalizeKeyword.
  destruct text as [| | |t]; try done. destruct mt as [| | |m]; try done.
  normalizer_guards t m done.
  case_bool_decide as Er; [done|].
  intros [= <-]. by exists t, m.
Qed.








Lemma canonicalMatchType_cases (m : str) :
  canonicalMatchType m = EXACT \/ canonicalMatchType m = PHRASE
  \/ canonicalMatchType m = BROAD.
Proof.
  unfold canonicalMatchType, JS.arrayIncludes.
  case_bool_decide as E; [|tauto].
  rewrite !elem_of_cons in E. destruct E as [E|[E|[E|E]]]; [tauto..|].
  by apply elem_of_nil in E.
Qed.

Lemma mcc_normalize_normal (text mt : jsval) (k : keyword) :
  Mcc.normalizeKeyword text mt = Some k -> isNormalRaw (raw k) = true.
Proof.
  intros (t & m & _ & _ & _ & _ & Hr & ->)%mcc_normalize_inv. simpl.
  by apply lower_trim_collapse_normal.
Qed.

Lemma single_normalize_normal (text mt : jsval) (k : keyword) :
  Single.normalizeKeyword text mt = Some k -> isNormalRaw (raw k) = true.
Proof.
  intros (t & m & _ & _ & _ & _ & Hr & ->)%single_normalize_inv. simpl.
  by apply lower_trim_collapse_normal.
Qed.

Lemma upper_canonical (T : str) :
  T = EXACT \/ T = PHRASE \/ T = BROAD -> toUpperCase T = T.
Proof.
  intros [-> | [-> | ->]]; by rewrite upper_ascii.
Qed.

Lemma canonicalMatchType_fixed (T : str) :
  T = EXACT \/ T = PHRASE \/ T = BROAD -> canonicalMatchType T = T.
Proof.
  intros HT. unfold canonicalMatchType. rewrite upper_canonical by done.
  destruct HT as [-> | [-> | ->]]; reflexivity.
Qed.

Lemma substring_inner (a b : code) (r : str) :
  JS.substring (a :: r ++ [b]) 1
    (Z.of_nat (length (a :: r ++ [b])) - 1) = r.
Proof.
  unfold JS.substring. cbn [length]. rewrite length_app. cbn [length].
  replace (Z.min (Z.max 1 0) (Z.of_nat (S (length r + 1)))) with 1%Z by lia.
  replace (Z.min (Z.max (Z.of_nat (S (length r + 1)) - 1) 0)
                 (Z.of_nat (S (length r + 1))))
    with (Z.of_nat (length r) + 1)%Z by lia.
  replace (Z.min 1 (Z.of_nat (length r) + 1)) with 1%Z by lia.
  replace (Z.max 1 (Z.of_nat (length r) + 1)) with (Z.of_nat (length r) + 1)%Z
    by lia.
  replace (Z.to_nat (Z.of_nat (length r) + 1 - 1)) with (length r) by lia.
  change (Z.to_nat 1) with 1%nat.
  change (drop 1 (a :: r ++ [b])) with (r ++ [b]).
  by rewrite take_app_length.
Qed.

Lemma trimKeyword_wrapped (a b : code) (r : str) :
  trimKeyword (a :: r ++ [b]) [a] [b] = JS.trim r.
Proof.
  unfold trimKeyword.
  assert (JS.startsWith [a] (a :: r ++ [b]) = true) as ->.
  { simpl. by rewrite N.eqb_refl. }
  assert (JS.endsWith [b] (a :: r ++ [b]) = true) as ->.
  { unfold JS.endsWith. cbn [rev]. rewrite rev_app_distr. simpl.
    by rewrite N.eqb_refl. }
  simpl andb. cbv iota.
  change (Z.of_nat (length [a])) with 1%Z.
  change (Z.of_nat (length [b])) with 1%Z.
  by rewrite substring_inner.
Qed.

Lemma trim_wrapped (a b : code) (r : str) :
  JS.isWhitespace a = false -> JS.isWhitespace b = false ->
  JS.trim (a :: r ++ [b]) = a :: r ++ [b].
Proof.
  intros Ha Hb. apply trim_fixed; [done|].
  cbn [rev]. rewrite rev_app_distr. done.
Qed.

Lemma display_trim (r T : str) :
  isNormalRaw r = true -> JS.trim (displayOf r T) = displayOf r T.
Proof.
  intros Hr. unfold displayOf.
  repeat case_bool_decide; [by apply trim_wrapped..|by apply normal_trim].
Qed.

Lemma display_nonempty (r T : str) : r <> [] -> displayOf r T <> [].
Proof. intros Hr. unfold displayOf. by repeat case_bool_decide. Qed.

Lemma mcc_stripWrapper_display (r T : str) :
  isNormalRaw r = true -> T = EXACT \/ T = PHRASE \/ T = BROAD ->
  Mcc.stripWrapper (displayOf r T) T = r.
Proof.
  intros Hr HT. unfold Mcc.stripWrapper. rewrite upper_canonical by done.
  destruct HT as [-> | [-> | ->]].
  - change (JS.includes EXACT PHRASE) with false.
    change (JS.includes EXACT EXACT) with true. cbv iota.
    change (displayOf r EXACT) with (LBRACKET :: r ++ [RBRACKET]).
    rewrite trimKeyword_wrapped. by apply normal_trim.
  - change (JS.includes PHRASE PHRASE) with true. cbv iota.
    change (displayOf r PHRASE) with (DQUOTE :: r ++ [DQUOTE]).
    rewrite trimKeyword_wrapped. by apply normal_trim.
  - change (JS.includes BROAD PHRASE) with false.
    change (JS.includes BROAD EXACT) with false. done.
Qed.

Lemma single_stripWrapper_display (r T : str) :
  isNormalRaw r = true -> T = EXACT \/ T = PHRASE \/ T = BROAD ->
  Single.stripWrapper (displayOf r T) T = r.
Proof.
  intros Hr HT. unfold Single.stripWrapper.
  destruct HT as [-> | [-> | ->]].
  - change (bool_decide (EXACT = PHRASE)) with false.
    change (bool_decide (EXACT = EXACT)) with true. cbv iota.
    change (displayOf r EXACT) with (LBRACKET :: r ++ [RBRACKET]).
    rewrite trimKeyword_wrapped. by apply normal_trim.
  - change (bool_decide (PHRASE = PHRASE)) with true. cbv iota.
    change (displayOf r PHRASE) with (DQUOTE :: r ++ [DQUOTE]).
    rewrite trimKeyword_wrapped. by apply normal_trim.
  - change (bool_decide (BROAD = PHRASE)) with false.
    change (bool_decide (BROAD = EXACT)) with false. done.
Qed.

Lemma stripModifiers_fixed (r : str) :
  noLeadingPlus r = true -> Mcc.stripModifiers r = r.
Proof.
  unfold noLeadingPlus, Mcc.stripModifiers. intros Hall.
  rewrite <- (join_split SPACE r) at 2. f_equal.
  rewrite <- (map_id (JS.split SPACE r)) at 2.
  apply map_ext_in. intros w Hw.
  rewrite forallb_forall in Hall. apply Hall in Hw.
  apply negb_true_iff in Hw. by rewrite Hw.
Qed.

Lemma stripPlusRegex_fixed (r : str) :
  noPlusBeforeText r = true -> JS.stripPlusRegex r = r.
Proof.
  unfold JS.stripPlusRegex.
  induction r as [|c t IH]; [done|].
  cbn [noPlusBeforeText JS.stripPlusFrom].
  intros [Hc Ht]%andb_prop. specialize (IH Ht).
  destruct (c =? PLUS) eqn:Ec; [|by rewrite IH].
  destruct t as [|d t]; [done|].
  simpl in Hc. apply negb_true_iff, negb_false_iff in Hc.
  rewrite Hc. by rewrite IH.
Qed.

End NormalizerFacts.

Section Renormalize.
Context `{CaseConv}.

Lemma canonical_nonempty (T : str) :
  T = EXACT \/ T = PHRASE \/ T = BROAD -> T <> [].
Proof. by intros [-> | [-> | ->]]. Qed.

Lemma mcc_renormalize (r T : str) :
  isNormalRaw r = true -> toLowerCase r = r -> noLeadingPlus r = true ->
  T = EXACT \/ T = PHRASE \/ T = BROAD ->
  Mcc.normalizeKeyword (JString (displayOf r T)) (JString T)
  = Some (Keyword (displayOf r T) r T).
Proof.
  intros Hr Hlow Hplus HT.
  pose proof (isNormalRaw_nonempty r Hr) as Hne.
  unfold Mcc.normalizeKeyword. simpl truthy.
  rewrite (bool_decide_false (displayOf r T = [])) by by apply display_nonempty.
  rewrite display_trim by done.
  rewrite (bool_decide_false (displayOf r T = [])) by by apply display_nonempty.
  rewrite (bool_decide_false (T = [])) by by apply canonical_nonempty.
  simpl.
  assert (Mcc.cleanRaw (displayOf r T) T = r) as ->.
  { unfold Mcc.cleanRaw. rewrite display_trim by done.
    rewrite mcc_stripWrapper_display by done.
    rewrite stripModifiers_fixed by done.
    by rewrite normal_trim_collapse. }
  rewrite bool_decide_false by done.
  by rewrite canonicalMatchType_fixed.
Qed.

Lemma single_renormalize (r T : str) :
  isNormalRaw r = true -> toLowerCase r = r -> noPlusBeforeText r = true ->
  T = EXACT \/ T = PHRASE \/ T = BROAD ->
  Single.normalizeKeyword (JString (displayOf r T)) (JString T)
  = Some (Keyword (displayOf r T) r T).
Proof.
  intros Hr Hlow Hplus HT.
  pose proof (isNormalRaw_nonempty r Hr) as Hne.
  unfold Single.normalizeKeyword. simpl truthy.
  rewrite (bool_decide_false (displayOf r T = [])) by by apply display_nonempty.
  rewrite display_trim by done.
  rewrite (bool_decide_false (displayOf r T = [])) by by apply display_nonempty.
  rewrite (bool_decide_false (T = [])) by by apply canonical_nonempty.
  simpl.
  assert (Single.cleanRaw (displayOf r T) T = r) as ->.
  { unfold Single.cleanRaw. rewrite display_trim by done.
    rewrite canonicalMatchType_fixed by done.
    rewrite single_stripWrapper_display by done.
    rewrite stripPlusRegex_fixed by done.
    by rewrite normal_trim_collapse. }
  rewrite bool_decide_false by done.
  by rewrite canonicalMatchType_fixed.
Qed.

(** C10, as the code has it: when [normalizeKeyword] succeeds and the
    modifier-stripping step would leave the resulting raw text as it is (in
    the multi-account script no space-delimited word of it begins with [+];
    in the single-account script no [+] of it is directly followed by a unit
    that is not whitespace), normalizing the display text under the
    canonical match type gives the same keyword again: the same raw text,
    display text and match type. *)
Theorem renormalize_display_fixed (text mt : jsval) (k : keyword) :
  (Mcc.normalizeKeyword text mt = Some k -> noLeadingPlus (raw k) = true ->
   Mcc.normalizeKeyword (JString (display k)) (JString (matchType k)) = Some k)
  /\ (Single.normalizeKeyword text mt = Some k ->
      noPlusBeforeText (raw k) = true ->
      Single.normalizeKeyword (JString (display k)) (JString (matchType k))
      = Some k).
Proof.
  split; intros Hk Hplus.
  - pose proof (mcc_normalize_normal _ _ _ Hk) as Hn.
    apply mcc_normalize_inv in Hk as (t & m & _ & _ & _ & _ & Hr & ->).
    simpl in *. apply mcc_renormalize; try done.
    + unfold Mcc.cleanRaw. apply lower_idem.
    + apply canonicalMatchType_cases.
  - pose proof (single_normalize_normal _ _ _ Hk) as Hn.
    apply single_normalize_inv in Hk as (t & m & _ & _ & _ & _ & Hr & ->).
    simpl in *. apply single_renormalize; try done.
    + unfold Single.cleanRaw. apply lower_idem.
    + apply canonicalMatchType_cases.
Qed.

End Renormalize.

Lemma renormalize_display_fixed_witness :
  Mcc.normalizeKeyword (H:=asciiCase)
    (JString (DQUOTE :: js "red shoes" ++ [DQUOTE])) (JString PHRASE)
  = Some (Keyword (DQUOTE :: js "red shoes" ++ [DQUOTE]) (js "red shoes") PHRASE)
  /\ Single.normalizeKeyword (H:=asciiCase)
       (JString (LBRACKET :: js "c+ compiler" ++ [RBRACKET])) (JString EXACT)
     = Some (Keyword (LBRACKET :: js "c+ compiler" ++ [RBRACKET])
                     (js "c+ compiler") EXACT).
Proof.
  split.
  - apply (proj1 (renormalize_display_fixed (H:=asciiCase)
             (JString (js "  +Red   SHOES ")) (JString (js "phrase_match"))
             (Keyword (DQUOTE :: js "red shoes" ++ [DQUOTE])
                      (js "red shoes") PHRASE))); reflexivity.
  - apply (proj2 (renormalize_display_fixed (H:=asciiCase)
             (JString (js "[C++ Compiler]")) (JString (js "EXACT"))
             (Keyword (LBRACKET :: js "c+ compiler" ++ [RBRACKET])
                      (js "c+ compiler") EXACT))); reflexivity.
Defined.

(** C10 fails as stated: the text [++a] under BROAD normalizes to the raw
    text [+a], whose display text [+a] normalizes to the raw text [a]. *)
Lemma renormalize_counterexample :
  ~ (forall k,
       Mcc.normalizeKeyword (H:=asciiCase)
         (JString (js "++a")) (JString (js "BROAD")) = Some k ->
       exists k',
         Mcc.normalizeKeyword (H:=asciiCase)
           (JString (display k)) (JString (matchType k)) = Some k'
         /\ raw k' = raw k /\ display k' = display k).
Proof.
  intros Hclaim.
  destruct (Hclaim (Keyword (js "+a") (js "+a") BROAD)) as (k' & Hk' & Hraw & _);
    [reflexivity|].
  vm_compute in Hk'. injection Hk' as <-. discriminate.
Qed.

(** The single-account script does the same on that input. *)
Lemma single_renormalize_counterexample :
  Single.normalizeKeyword (H:=asciiCase)
    (JString (js "++a")) (JString (js "BROAD"))
  = Some (Keyword (js "+a") (js "+a") BROAD)
  /\ Single.normalizeKeyword (H:=asciiCase)
       (JString (js "+a")) (JString BROAD)
     = Some (Keyword (js "a") (js "a") BROAD).
Proof. split; reflexivity. Qed.


Lemma normalize_unparseable_kept :
  Mcc.normalizeKeyword (H:=asciiCase)
    (JString (js "shoes")) (JString (js "FOO"))
  = Some (Keyword (js "shoes") (js "shoes") BROAD)
  /\ Single.normalizeKeyword (H:=asciiCase)
       (JString (js "shoes")) (JString (js "FOO"))
     = Some (Keyword (js "shoes") (js "shoes") BROAD).
Proof. split; reflexivity. Qed.

(** ** The two scripts side by side *)

Section Variants.
Context `{CaseConv}.

Lemma trimStart_subseteq (s : str) : JS.trimStart s ⊆ s.
Proof.
  induction s as [|c s IH]; simpl; [done|].
  destruct (JS.isWhitespace c); [|done].
  intros x Hx. apply elem_of_cons. right. by apply IH.
Qed.

Lemma rev_subseteq (s : str) : rev s ⊆ s.
Proof. intros x Hx. apply list_elem_of_In, in_rev. by apply list_elem_of_In. Qed.

Lemma trim_subseteq (s : str) : JS.trim s ⊆ s.
Proof.
  unfold JS.trim, JS.trimEnd. intros x Hx.
  apply trimStart_subseteq, rev_subseteq, trimStart_subseteq, rev_subseteq.
  done.
Qed.

Lemma substring_subseteq (s : str) (a b : Z) : JS.substring s a b ⊆ s.
Proof.
  unfold JS.substring. intros x Hx.
  by apply subseteq_take, subseteq_drop in Hx.
Qed.

Lemma trimKeyword_subseteq (text open close : str) :
  trimKeyword text open close ⊆ text.
Proof.
  unfold trimKeyword. case_match; [|done].
  intros x Hx. by apply trim_subseteq, substring_subseteq in Hx.
Qed.

Lemma split_subseteq (sep : code) (s w : str) :
  w ∈ JS.split sep s -> w ⊆ s.
Proof.
  revert w. induction s as [|c s IH]; intros w; simpl.
  - intros ->%list_elem_of_singleton. done.
  - destruct (c =? sep).
    + intros [->|Hw]%elem_of_cons; [by intros x Hx%elem_of_nil|].
      intros x Hx. apply elem_of_cons. right. by apply (IH w).
    + destruct (JS.split sep s) as [|h r] eqn:E.
      * intros ->%list_elem_of_singleton. intros x Hx.
        apply list_elem_of_singleton in Hx as ->. by left.
      * intros [->|Hw]%elem_of_cons; intros x Hx.
        -- apply elem_of_cons in Hx as [->|Hx]; [by left|].
           apply elem_of_cons. right. apply (IH h); [by left | done].
        -- apply elem_of_cons. right. apply (IH w); [by right | done].
Qed.

Lemma noPlus_noLeadingPlus (r : str) : PLUS ∉ r -> noLeadingPlus r = true.
Proof.
  intros Hr. unfold noLeadingPlus. apply forallb_forall. intros w Hw.
  apply negb_true_iff, not_true_is_false. intros Hs.
  apply startsWith_prefix in Hs as [k ->]. apply Hr.
  apply (split_subseteq SPACE r _ (proj2 (list_elem_of_In _ _) Hw)).
  by left.
Qed.

Lemma noPlus_noPlusBeforeText (r : str) : PLUS ∉ r -> noPlusBeforeText r = true.
Proof.
  induction r as [|c t IH]; [done|]. intros Hr.
  cbn [noPlusBeforeText]. apply andb_true_intro. split.
  - destruct t as [|d t]; [done|].
    destruct (N.eqb_spec c PLUS) as [->|]; [|done].
    exfalso. apply Hr. by left.
  - apply IH. intros Ht. apply Hr. by right.
Qed.

Lemma stripWrapper_agree (x m : str) :
  sameWrapper m = true ->
  Single.stripWrapper x (canonicalMatchType m) = Mcc.stripWrapper x m.
Proof.
  unfold sameWrapper, Single.stripWrapper, Mcc.stripWrapper.
  destruct (bool_decide (canonicalMatchType m = PHRASE)).
  - by intros ->.
  - destruct (bool_decide (canonicalMatchType m = EXACT)).
    + intros [->%negb_true_iff ->]%andb_prop. done.
    + intros [->%negb_true_iff ->%negb_true_iff]%andb_prop. done.
Qed.

(** The match types of the reports, with or without the [_MATCH] suffix and
    in any letter case, select the same wrapper in both scripts. *)
Lemma sameWrapper_standard (m : str) :
  toUpperCase m ∈ [EXACT; PHRASE; BROAD;
                   js "EXACT_MATCH"; js "PHRASE_MATCH"; js "BROAD_MATCH"] ->
  sameWrapper m = true.
Proof.
  unfold sameWrapper, canonicalMatchType. rewrite !elem_of_cons.
  intros [E|[E|[E|[E|[E|[E|E]]]]]]; try (rewrite E; reflexivity).
  by apply elem_of_nil in E.
Qed.

Lemma noPlus_modifiersAgree (s : str) : PLUS ∉ s -> modifiersAgree s = true.
Proof.
  intros Hs. unfold modifiersAgree. apply forallb_forall. intros w Hw.
  assert (PLUS ∉ w) as Hp.
  { intros Hin. apply Hs.
    by apply (split_subseteq SPACE s w (proj2 (list_elem_of_In _ _) Hw)). }
  destruct w as [|c r]; [done|]. cbn [sameModifierRemoval].
  destruct (N.eqb_spec c PLUS) as [->|_].
  - exfalso. apply Hp. by left.
  - by apply (noPlus_noPlusBeforeText (c :: r)).
Qed.

Lemma isWhitespace_not_plus (c : code) :
  JS.isWhitespace c = true -> (c =? PLUS) = false.
Proof. intros Hc. by destruct (N.eqb_spec c PLUS) as [->|]. Qed.

Lemma substringFrom_tail (c : code) (w : str) :
  JS.substringFrom (c :: w) 1 = w.
Proof.
  unfold JS.substringFrom, JS.substring. cbn [length].
  replace (Z.min (Z.max 1 0) (Z.of_nat (S (length w)))) with 1%Z by lia.
  replace (Z.min (Z.max (Z.of_nat (S (length w))) 0) (Z.of_nat (S (length w))))
    with (Z.of_nat (S (length w))) by lia.
  replace (Z.min 1 (Z.of_nat (S (length w)))) with 1%Z by lia.
  replace (Z.max 1 (Z.of_nat (S (length w)))) with (Z.of_nat (S (length w)))
    by lia.
  replace (Z.to_nat (Z.of_nat (S (length w)) - 1)) with (length w) by lia.
  change (Z.to_nat 1) with 1%nat. change (drop 1 (c :: w)) with w.
  apply firstn_all.
Qed.

Lemma stripPlus_length (b : bool) (s : str) :
  (length (JS.stripPlusFrom b s) <= length s)%nat.
Proof.
  revert b. induction s as [|c t IH]; intros b; [done|].
  cbn [JS.stripPlusFrom].
  destruct b.
  - destruct (JS.isWhitespace c); cbn [length]; apply le_n_S, IH.
  - destruct (c =? PLUS); [|cbn [length]; apply le_n_S, IH].
    destruct t as [|d t]; [done|].
    destruct (JS.isWhitespace d); [cbn [length]; apply le_n_S, IH|].
    specialize (IH true). cbn [length] in *. lia.
Qed.

Lemma stripPlus_Forall (P : code -> Prop) (b : bool) (s : str) :
  Forall P s -> Forall P (JS.stripPlusFrom b s).
Proof.
  intros Hs. revert b. induction Hs as [|c t Hc Ht IH]; intros b; [done|].
  cbn [JS.stripPlusFrom].
  destruct b.
  - destruct (JS.isWhitespace c); by constructor.
  - destruct (c =? PLUS); [|by constructor].
    destruct t as [|d t]; [by constructor|].
    destruct (JS.isWhitespace d); [by constructor|]. apply IH.
Qed.

(** The regex leaves a text as it is exactly when no [+] of the text is
    directly followed by a unit other than whitespace. *)
Lemma stripPlus_fixed_iff (s : str) :
  JS.stripPlusFrom false s = s <-> noPlusBeforeText s = true.
Proof.
  split; [|apply stripPlusRegex_fixed].
  induction s as [|c t IH]; [done|].
  cbn [JS.stripPlusFrom noPlusBeforeText].
  destruct (c =? PLUS) eqn:Ec.
  - destruct t as [|d t]; [done|].
    destruct (JS.isWhitespace d) eqn:Ed.
    + intros [= E]. by rewrite (IH E).
    + intros E. pose proof (stripPlus_length true (d :: t)) as Hl.
      rewrite E in Hl. simpl in Hl. lia.
  - intros [= E]. rewrite (IH E). by destruct t.
Qed.

(** Inside the run that follows a removed [+]. *)
Lemma stripPlus_run_fixed_iff (r : str) :
  JS.stripPlusFrom true r = r
  <-> noPlusBeforeText (fromFirstWhitespace r) = true.
Proof.
  induction r as [|c t IH]; [done|].
  cbn [JS.stripPlusFrom fromFirstWhitespace].
  destruct (JS.isWhitespace c) eqn:Ec.
  - cbn [noPlusBeforeText]. rewrite (isWhitespace_not_plus c Ec).
    split.
    + intros [= E]. apply stripPlus_fixed_iff in E. rewrite E.
      by destruct t.
    + intros [_ E]%andb_prop. apply stripPlus_fixed_iff in E.
      by rewrite E.
  - rewrite <- IH. split; [by intros [= ->] | by intros ->].
Qed.

Lemma stripPlus_app_space (b : bool) (v rest : str) :
  JS.stripPlusFrom b (v ++ SPACE :: rest)
  = JS.stripPlusFrom b v ++ SPACE :: JS.stripPlusFrom false rest.
Proof.
  revert b. induction v as [|c v IH]; intros b.
  - by destruct b.
  - cbn [app JS.stripPlusFrom].
    destruct b.
    + destruct (JS.isWhitespace c); by rewrite IH.
    + destruct (c =? PLUS); [|by rewrite IH].
      pose proof (IH false) as IHf. pose proof (IH true) as IHt.
      destruct v as [|d v]; [done|].
      cbn [app] in *. destruct (JS.isWhitespace d).
      * by rewrite IHf.
      * by rewrite IHt.
Qed.

Lemma stripPlus_join (l : list str) :
  JS.stripPlusFrom false (JS.join [SPACE] l)
  = JS.join [SPACE] (map (JS.stripPlusFrom false) l).
Proof.
  induction l as [|w l IH]; [done|].
  destruct l as [|w' l]; [done|].
  rewrite (join_cons [SPACE] w (w' :: l)) by done.
  change (map (JS.stripPlusFrom false) (w :: w' :: l))
    with (JS.stripPlusFrom false w
          :: JS.stripPlusFrom false w' :: map (JS.stripPlusFrom false) l).
  rewrite (join_cons [SPACE] (JS.stripPlusFrom false w)) by done.
  change ([SPACE] ++ ?x) with (SPACE :: x).
  by rewrite stripPlus_app_space, IH.
Qed.

(** The words on which the two removals of the modifier agree. *)
Lemma sameModifierRemoval_spec (word : str) :
  JS.stripPlusFrom false word
  = (if JS.startsWith [PLUS] word then JS.substringFrom word 1 else word)
  <-> sameModifierRemoval word = true.
Proof.
  destruct word as [|c r]; [done|].
  cbn [JS.startsWith sameModifierRemoval]. rewrite andb_true_r.
  rewrite (N.eqb_sym PLUS c).
  destruct (c =? PLUS) eqn:Ec.
  - rewrite substringFrom_tail. cbn [JS.stripPlusFrom]. rewrite Ec.
    destruct r as [|d r]; [done|].
    destruct (JS.isWhitespace d) eqn:Ed.
    + split; [|done]. intros [= E _]. subst d.
      by rewrite (isWhitespace_not_plus c Ed) in Ec.
    + apply stripPlus_run_fixed_iff.
  - apply (stripPlus_fixed_iff (c :: r)).
Qed.

Lemma join_space_inj (l1 l2 : list str) :
  l1 <> [] -> l2 <> [] ->
  Forall (Forall (fun c => c <> SPACE)) l1 ->
  Forall (Forall (fun c => c <> SPACE)) l2 ->
  JS.join [SPACE] l1 = JS.join [SPACE] l2 -> l1 = l2.
Proof.
  intros H1 H2 F1 F2 E.
  rewrite <- (split_join SPACE l1), <- (split_join SPACE l2) by done.
  by rewrite E.
Qed.

Lemma split_pieces_no_sep (sep : code) (s : str) :
  Forall (Forall (fun c => c <> sep)) (JS.split sep s).
Proof.
  induction s as [|c s IH]; simpl; [by repeat constructor|].
  destruct (N.eqb_spec c sep) as [->|Hc]; [by constructor|].
  destruct (JS.split sep s) as [|h r]; [by repeat constructor|].
  apply Forall_cons in IH as [Hh Hr]. by repeat constructor.
Qed.

(** The two removals of the modifier give the same text exactly on the
    texts whose words are of this kind. *)
Lemma modifiersAgree_spec (s : str) :
  JS.stripPlusRegex s = Mcc.stripModifiers s <-> modifiersAgree s = true.
Proof.
  unfold JS.stripPlusRegex, Mcc.stripModifiers, modifiersAgree.
  rewrite <- (join_split SPACE s) at 1. rewrite stripPlus_join.
  pose proof (split_pieces_no_sep SPACE s) as Hs.
  pose proof (split_nonempty SPACE s) as Hne.
  rewrite forallb_forall. split.
  - intros E%join_space_inj.
    + intros w Hw. apply sameModifierRemoval_spec.
      apply (f_equal (fun l => nth_error l)) in E.
      apply In_nth_error in Hw as [n Hn].
      pose proof (f_equal (fun g => g n) E) as En. simpl in En.
      rewrite !nth_error_map, Hn in En. by injection En.
    + by destruct (JS.split SPACE s).
    + by destruct (JS.split SPACE s).
    + apply Forall_map. eapply Forall_impl; [done|].
      intros w Hw. by apply stripPlus_Forall.
    + apply Forall_map. eapply Forall_impl; [done|].
      intros w Hw. unfold compose. cbv beta.
      destruct (JS.startsWith [PLUS] w); [|done].
      apply Forall_forall. intros x Hx%substring_subseteq.
      by apply (proj1 (Forall_forall _ _) Hw).
  - intros Hall. f_equal. apply map_ext_in. intros w Hw.
    by apply sameModifierRemoval_spec, Hall.
Qed.

Lemma cleanRaw_agree (t m : str) :
  sameWrapper m = true ->
  modifiersAgree (Mcc.stripWrapper (JS.trim t) m) = true ->
  Single.cleanRaw t m = Mcc.cleanRaw t m.
Proof.
  intros Hm Ht. unfold Single.cleanRaw, Mcc.cleanRaw.
  rewrite stripWrapper_agree by done.
  by rewrite (proj2 (modifiersAgree_spec _) Ht).
Qed.




(** The texts without [+] are among them. *)
Lemma variants_agree_without_plus (t m : str) :
  PLUS ∉ t -> sameWrapper m = true ->
  Single.normalizeKeyword (JString t) (JString m)
  = Mcc.normalizeKeyword (JString t) (JString m).
Proof.
  intros Ht Hm. unfold Single.normalizeKeyword, Mcc.normalizeKeyword.
  rewrite cleanRaw_agree; [done|done|].
  apply noPlus_modifiersAgree.
  intros Hin. apply Ht, trim_subseteq. unfold Mcc.stripWrapper in Hin.
  repeat case_match; try done; by apply trimKeyword_subseteq in Hin.
Qed.

End Variants.


(** The broad match modifier in front of every word, a wrapper around the
    text and a [+] at the end of a word are handled alike. *)
Lemma variants_agree_values :
  Single.normalizeKeyword (H:=asciiCase)
    (JString (js " +Red  +Shoes cheap ")) (JString (js "Broad_Match"))
  = Some (Keyword (js "red shoes cheap") (js "red shoes cheap") BROAD)
  /\ Mcc.normalizeKeyword (H:=asciiCase)
       (JString (js " +Red  +Shoes cheap ")) (JString (js "Broad_Match"))
     = Some (Keyword (js "red shoes cheap") (js "red shoes cheap") BROAD)
  /\ modifiersAgree (js "+red +shoes") = true
  /\ modifiersAgree (js "c+ books") = true
  /\ modifiersAgree (js "a+b") = false
  /\ modifiersAgree (js "a + b") = false.
Proof. repeat split; reflexivity. Qed.


Lemma normalizers_differ_values :
  Single.normalizeKeyword (H:=asciiCase)
    (JString (js "a+b")) (JString (js "EXACT"))
  = Some (Keyword (js "[ab]") (js "ab") EXACT)
  /\ Mcc.normalizeKeyword (H:=asciiCase)
       (JString (js "a+b")) (JString (js "EXACT"))
     = Some (Keyword (js "[a+b]") (js "a+b") EXACT).
Proof. split; reflexivity. Qed.

(** The wrapper choice differs as well: under the match type [XPHRASE] only
    the multi-account script removes the quotes. *)
Lemma wrappers_differ_values :
  Single.normalizeKeyword (H:=asciiCase)
    (JString (DQUOTE :: js "a" ++ [DQUOTE])) (JString (js "XPHRASE"))
  = Some (Keyword (DQUOTE :: js "a" ++ [DQUOTE])
                  (DQUOTE :: js "a" ++ [DQUOTE]) BROAD)
  /\ Mcc.normalizeKeyword (H:=asciiCase)
       (JString (DQUOTE :: js "a" ++ [DQUOTE])) (JString (js "XPHRASE"))
     = Some (Keyword (js "a") (js "a") BROAD).
Proof. split; reflexivity. Qed.

(** ** The analyzer *)

Section Analyzer.

Lemma fold_left_app_flat_map {A B} (f : list B -> A -> list B)
  (g : A -> list B) :
  (forall out a, f out a = out ++ g a) ->
  forall l out, fold_left f l out = out ++ flat_map g l.
Proof.
  intros Hf. induction l as [|a l IH]; intros out; simpl.
  - by rewrite app_nil_r.
  - by rewrite IH, Hf, <- app_assoc.
Qed.

Lemma blockedBy_filter (negative : keyword) (positives : list keyword) :
  Mcc.blockedBy negative positives
  = map display (List.filter (blocks negative) positives).
Proof.
  unfold Mcc.blockedBy.
  rewrite (fold_left_app_flat_map _
             (fun positive => if blocks negative positive
                              then [display positive] else [])).
  - simpl. induction positives as [|p ps IH]; [done|]. simpl.
    destruct (blocks negative p); simpl; by rewrite IH.
  - intros out p. unfold blocks.
    destruct (Mcc.negativeBlocksPositive _ _); [done|by rewrite app_nil_r].
Qed.

Lemma checkLevel_records (out : list conflictRow)
  (negatives positives : list keyword) (loc : str) :
  Mcc.checkLevelForConflicts out negatives positives loc
  = out ++ levelRecords negatives positives loc.
Proof.
  unfold Mcc.checkLevelForConflicts, levelRecords.
  case_bool_decide as E.
  - destruct negatives; [|done]. simpl. by rewrite app_nil_r.
  - apply fold_left_app_flat_map. intros out' negative.
    rewrite blockedBy_filter. unfold recordOf.
    destruct (List.filter (blocks negative) positives) as [|p ps].
    + simpl. by rewrite app_nil_r.
    + done.
Qed.

Lemma checkSharedList_records (c : Mcc.cache)
  (campaign : campaignEntry keyword) (positives : list keyword)
  (out : list conflictRow) (listInfo : listRef) :
  Mcc.checkSharedList c campaign positives out listInfo
  = out ++ sharedListRecords c campaign positives listInfo.
Proof.
  unfold Mcc.checkSharedList, sharedListRecords.
  destruct (obj_get (Mcc.sharedLists c) (lr_listId listInfo)).
  - apply checkLevel_records.
  - by rewrite app_nil_r.
Qed.

Lemma checkAdGroup_records (c : Mcc.cache) (campaign : campaignEntry keyword)
  (out : list conflictRow) (adGroup : adGroupEntry keyword) :
  Mcc.checkAdGroup c campaign out adGroup
  = out ++ adGroupRecords c campaign adGroup.
Proof.
  unfold Mcc.checkAdGroup, adGroupRecords.
  destruct (ag_positives adGroup) as [|p ps] eqn:E.
  - simpl. by rewrite app_nil_r.
  - rewrite bool_decide_false by done. rewrite bool_decide_false by done.
    rewrite !checkLevel_records.
    rewrite (fold_left_app_flat_map _ _ (checkSharedList_records c campaign _)).
    by rewrite <- !app_assoc.
Qed.

Lemma findConflicts_records (c : Mcc.cache) :
  Mcc.findConflicts c
  = flat_map (fun campaign =>
                flat_map (adGroupRecords c campaign) (adGroupsInOrder campaign))
             (campaignsInOrder c).
Proof.
  unfold Mcc.findConflicts.
  rewrite (fold_left_app_flat_map _
             (fun campaign =>
                flat_map (adGroupRecords c campaign) (adGroupsInOrder campaign))).
  - done.
  - intros out campaign.
    apply (fold_left_app_flat_map _ _ (checkAdGroup_records c campaign)).
Qed.

Lemma existsb_filter {A} (f : A -> bool) (l : list A) :
  existsb f l = negb (bool_decide (List.filter f l = [])).
Proof.
  induction l as [|a l IH]; [done|]. simpl.
  destruct (f a); [done|]. by rewrite IH.
Qed.

(** C4, as the code has it: one evaluation of a level against the positives
    of one ad group appends, for each entry of the level's negatives in
    order, at most one record; the record is there exactly when the negative
    blocks at least one of the positives, and it lists the display texts of
    the blocked positives in the order of the positives, duplicates
    included, joined by a comma and a space.  A run is the sequence of these
    evaluations over the ad groups that have positives, so a campaign,
    shared-list or account negative is evaluated once per such ad group
    under one and the same location text. *)
Theorem conflict_records_per_evaluation :
  (forall out negatives positives loc,
     Mcc.checkLevelForConflicts out negatives positives loc
     = out ++ flat_map (recordOf positives loc) negatives)
  /\ (forall positives loc negative,
        recordOf positives loc negative
        = if existsb (blocks negative) positives
          then [[display negative; loc;
                 JS.join (js ", ")
                   (map display (List.filter (blocks negative) positives))]]
          else [])
  /\ (forall c,
        Mcc.findConflicts c
        = flat_map (fun campaign =>
                      flat_map (adGroupRecords c campaign)
                               (adGroupsInOrder campaign))
                   (campaignsInOrder c)).
Proof.
  split; [|split].
  - intros. apply checkLevel_records.
  - intros positives loc negative. unfold recordOf.
    rewrite existsb_filter.
    by destruct (List.filter (blocks negative) positives).
  - apply findConflicts_records.
Qed.

Lemma flat_map_filter_nonempty {A B} (g : A -> list B) (keep : A -> bool)
  (l : list A) :
  (forall a, keep a = false -> g a = []) ->
  flat_map g l = flat_map g (List.filter keep l).
Proof.
  intros Hg. induction l as [|a l IH]; [done|]. simpl.
  destruct (keep a) eqn:E; simpl; [by rewrite IH|].
  by rewrite (Hg a E), IH.
Qed.

(** C9: an ad group without positives is skipped by both scripts: the loop
    body leaves the output as it is, whatever the negatives at any level (in
    the single-account script even when they hold [null] entries), so the
    records of a run are those of the ad groups that have positives. *)
Theorem ad_group_without_positives_skipped :
  (forall c campaign out (adGroup : adGroupEntry keyword),
     ag_positives adGroup = [] ->
     Mcc.checkAdGroup c campaign out adGroup = out)
  /\ (forall c campaign out (adGroup : adGroupEntry (option keyword)),
        ag_positives adGroup = [] ->
        Single.checkAdGroup c campaign out adGroup = Ok out)
  /\ (forall c,
        Mcc.findConflicts c
        = flat_map (fun campaign =>
                      flat_map (adGroupRecords c campaign)
                        (List.filter
                           (fun adGroup =>
                              negb (bool_decide (ag_positives adGroup = [])))
                           (adGroupsInOrder campaign)))
                   (campaignsInOrder c)).
Proof.
  split; [|split].
  - intros c campaign out adGroup E. unfold Mcc.checkAdGroup. by rewrite E.
  - intros c campaign out adGroup E. unfold Single.checkAdGroup. by rewrite E.
  - intros c. rewrite findConflicts_records.
    apply flat_map_ext. intros campaign.
    apply flat_map_filter_nonempty. intros adGroup E.
    apply negb_false_iff, bool_decide_eq_true in E.
    unfold adGroupRecords. by rewrite E.
Qed.

End Analyzer.

Lemma ad_group_without_positives_witness :
  Mcc.checkAdGroup
    (Mcc.Cache [] [] [Keyword (js "shoes") (js "shoes") BROAD])
    (CampaignEntry (jstr "Summer") []
       [Keyword (js "shoes") (js "shoes") BROAD] [])
    []
    (AdGroupEntry (jstr "Boots") [] [Keyword (js "red") (js "red") BROAD]) = []
  /\ Single.checkAdGroup
       (Single.Cache [] [])
       (CampaignEntry (jstr "Summer") [] [None] [])
       []
       (AdGroupEntry (jstr "Boots") [] [None]) = Ok [].
Proof.
  split.
  - apply (proj1 ad_group_without_positives_skipped). reflexivity.
  - apply (proj1 (proj2 ad_group_without_positives_skipped)). reflexivity.
Defined.

(** C4 fails as stated: with two ad groups in one campaign, a campaign
    negative that blocks a positive in each of them yields two records with
    the same negative and the same location. *)
Lemma same_negative_and_location_twice_counterexample :
  ~ (forall c,
       Mcc.buildDataCache (H:=asciiCase) twoAdGroups = Some c ->
       NoDup (map negativeAndLocation (Mcc.findConflicts c))).
Proof.
  intros Hclaim.
  destruct (Mcc.buildDataCache (H:=asciiCase) twoAdGroups) as [c|] eqn:E;
    [|vm_compute in E; discriminate].
  specialize (Hclaim c eq_refl).
  vm_compute in E. injection E as <-. vm_compute in Hclaim.
  apply NoDup_cons in Hclaim as [Hnotin _]. apply Hnotin. by left.
Qed.

Lemma twoAdGroups_conflicts :
  (c ← Mcc.buildDataCache (H:=asciiCase) twoAdGroups;
   Some (Mcc.findConflicts c))
  = Some [[js "shoes"; js "Campaign: Summer"; js "shoes"];
          [js "shoes"; js "Campaign: Summer"; js "red shoes"]].
Proof. reflexivity. Qed.

(** ** The builder *)

Section Builder.
Context `{CaseConv}.

(** C6, as the code has it: [buildDataCache] returns [null] exactly when one
    of its fetches raises outside the per-row handlers, whichever fetch it
    is: any of the five report queries in the multi-account script, whose
    two sample queries are guarded, and any of the six queries in the
    single-account script.  What the earlier fetches gathered is then
    dropped with the cache. *)
Theorem buildDataCache_null_iff (ds : dataSource) :
  (Mcc.buildDataCache ds = None
   <-> keywordReport ds = None \/ campaignNegativeReport ds = None
       \/ sharedKeywordReport ds = None \/ associationReport ds = None
       \/ accountNegativeReport ds = None)
  /\ (Single.buildDataCache ds = None
      <-> keywordSample ds = None \/ keywordReport ds = None
          \/ campaignNegativeSample ds = None
          \/ campaignNegativeReport ds = None
          \/ sharedKeywordReport ds = None \/ associationReport ds = None).
Proof.
  destruct ds as [ks kr cs cr sr ar nr].
  unfold Mcc.buildDataCache, Single.buildDataCache,
    Mcc.fetchKeywords, Mcc.fetchCampaignNegatives,
    Mcc.fetchSharedNegativeLists, Mcc.fetchAccountNegatives,
    Single.fetchKeywords, Single.fetchCampaignNegatives,
    Single.fetchSharedNegativeLists.
  cbn [keywordSample keywordReport campaignNegativeSample
       campaignNegativeReport sharedKeywordReport associationReport
       accountNegativeReport].
  destruct ks, kr, cs, cr, sr, ar, nr; cbn [mbind result_bind];
    split; (split; [try done; intros _; tauto | intuition discriminate]).
Qed.

End Builder.

(** C6 fails as stated: the keyword report arrives, the campaign negative
    query raises, and the cache is [null]. *)
Lemma later_fetch_failure_counterexample :
  ~ (Mcc.buildDataCache (H:=asciiCase) campaignNegativesFail = None ->
     keywordReport campaignNegativesFail = None).
Proof. intros Hclaim. specialize (Hclaim eq_refl). discriminate. Qed.

(** C8 on the single-account script: the row whose text is a single space
    passes the missing-data check, [normalizeKeyword] returns [null] for it,
    and the [null] is pushed to the positives of the ad group; the analysis
    of that cache then raises.  The multi-account script skips the row. *)
Theorem single_stores_invalid_keyword :
  Single.buildDataCache (H:=asciiCase) blankKeyword
  = Some (Single.Cache
            [(js "1",
              CampaignEntry (jstr "Summer")
                [(js "10",
                  AdGroupEntry (jstr "Boots") [None]
                    [Some (Keyword (js "shoes") (js "shoes") BROAD)])]
                [] [])]
            [])
  /\ (c ← Single.buildDataCache (H:=asciiCase) blankKeyword;
      Some (Single.findConflicts c)) = Some Throws
  /\ Mcc.buildDataCache (H:=asciiCase) blankKeyword
     = Some (Mcc.Cache
               [(js "1",
                 CampaignEntry (jstr "Summer")
                   [(js "10",
                     AdGroupEntry (jstr "Boots") []
                       [Keyword (js "shoes") (js "shoes") BROAD])]
                   [] [])]
               [] []).
Proof. repeat split; reflexivity. Qed.

(** ** What the multi-account builder stores *)

Section CacheInvariant.
Context `{CaseConv}.
Context {K : Type}.

Lemma obj_get_Forall {V} (Q : V -> Prop) (o : obj V) (k : str) (v : V) :
  Forall (fun entry => Q entry.2) o -> obj_get o k = Some v -> Q v.
Proof.
  induction 1 as [|[k' v'] o Hv _ IH]; simpl; [done|].
  case_bool_decide; [by intros [= <-] | done].
Qed.

Lemma obj_set_Forall {V} (Q : V -> Prop) (o : obj V) (k : str) (v : V) :
  Forall (fun entry => Q entry.2) o -> Q v ->
  Forall (fun entry => Q entry.2) (obj_set o k v).
Proof.
  intros Ho Hv. induction Ho as [|[k' v'] o Hv' Ho IH]; simpl.
  - by repeat constructor.
  - case_bool_decide; by constructor.
Qed.

Lemma obj_update_Forall {V} (Q : V -> Prop) (o : obj V) (k : str)
  (f : V -> V) :
  Forall (fun entry => Q entry.2) o -> (forall v, Q v -> Q (f v)) ->
  Forall (fun entry => Q entry.2) (obj_update o k f).
Proof.
  intros Ho Hf. unfold obj_update.
  destruct (obj_get o k) as [v|] eqn:E; [|done].
  apply obj_set_Forall; [done|]. apply Hf. by eapply obj_get_Forall.
Qed.

Lemma obj_init_Forall {V} (Q : V -> Prop) (o : obj V) (k : str) (v : V) :
  Forall (fun entry => Q entry.2) o -> Q v ->
  Forall (fun entry => Q entry.2) (obj_init o k v).
Proof.
  intros Ho Hv. unfold obj_init.
  destruct (obj_get o k); [done|]. by apply obj_set_Forall.
Qed.

Lemma ensureAdGroup_all (P : K -> Prop) (campaigns campaigns' : obj (campaignEntry K))
  (row : keywordRow) :
  Forall (fun entry => campaignAll P entry.2) campaigns ->
  ensureAdGroup campaigns row = Some campaigns' ->
  Forall (fun entry => campaignAll P entry.2) campaigns'.
Proof.
  intros Hc. unfold ensureAdGroup. case_match; [done|]. intros [= <-].
  apply (obj_update_Forall (campaignAll P)).
  - apply (obj_init_Forall (campaignAll P)); [done|].
    split; constructor.
  - intros e [Hn Hg]. split; [done|]. simpl.
    apply (obj_init_Forall (adGroupAll P)); [done|]. split; constructor.
Qed.

Lemma routeKeyword_all (P : K -> Prop) (campaigns : obj (campaignEntry K))
  (row : keywordRow) (k : K) :
  Forall (fun entry => campaignAll P entry.2) campaigns -> P k ->
  Forall (fun entry => campaignAll P entry.2) (routeKeyword campaigns row k).
Proof.
  intros Hc Hk. unfold routeKeyword.
  apply (obj_update_Forall (campaignAll P)); [done|].
  intros e [Hn Hg]. split; [done|]. simpl.
  apply (obj_update_Forall (adGroupAll P)); [done|].
  intros g [Hp Hng]. case_bool_decide; split; simpl; try done.
  - apply Forall_app. split; [done|by constructor].
  - apply Forall_app. split; [done|by constructor].
Qed.

Lemma addAssociation_all (P : K -> Prop) (campaigns : obj (campaignEntry K))
  (sharedLists : obj (sharedListEntry K)) (row : associationRow) :
  Forall (fun entry => campaignAll P entry.2) campaigns ->
  Forall (fun entry => campaignAll P entry.2)
         (addAssociation campaigns sharedLists row).
Proof.
  intros Hc. unfold addAssociation.
  repeat case_match; try done.
  apply (obj_update_Forall (campaignAll P)); [done|].
  by intros e [Hn Hg].
Qed.

End CacheInvariant.

Section MccCacheInvariant.
Context `{CaseConv}.

Lemma fold_left_invariant {A B} (Inv : B -> Prop) (f : B -> A -> B)
  (l : list A) (b : B) :
  (forall b a, Inv b -> Inv (f b a)) -> Inv b -> Inv (fold_left f l b).
Proof.
  intros Hf. revert b. induction l as [|a l IH]; simpl; [done|].
  intros b Hb. by apply IH, Hf.
Qed.

Lemma addKeywordRow_all (c : Mcc.cache) (row : keywordRow) :
  mccCacheAll storedOk c -> mccCacheAll storedOk (Mcc.addKeywordRow c row).
Proof.
  intros (Hc & Hl & Ha). unfold Mcc.addKeywordRow.
  destruct (ensureAdGroup (Mcc.campaigns c) row) as [campaigns1|] eqn:E;
    [|done].
  pose proof (ensureAdGroup_all storedOk _ _ _ Hc E) as Hc1.
  destruct (Mcc.normalizeKeyword _ _) as [k|] eqn:Ek; [|done].
  split; [|done]. simpl. apply routeKeyword_all; [done|].
  by eapply mcc_normalize_normal.
Qed.

Lemma addCampaignNegativeRow_all (c : Mcc.cache) (row : campaignNegativeRow) :
  mccCacheAll storedOk c ->
  mccCacheAll storedOk (Mcc.addCampaignNegativeRow c row).
Proof.
  intros (Hc & Hl & Ha). unfold Mcc.addCampaignNegativeRow.
  case_match; [done|]. case_match; [|done].
  destruct (Mcc.normalizeKeyword _ _) as [k|] eqn:Ek; [|done].
  split; [|done]. simpl.
  apply (obj_update_Forall (campaignAll storedOk)); [done|].
  intros e [Hn Hg]. split; [|done]. simpl.
  apply Forall_app. split; [done|]. constructor; [|done].
  by eapply mcc_normalize_normal.
Qed.

Lemma addSharedKeywordRow_all (c : Mcc.cache) (row : sharedKeywordRow) :
  mccCacheAll storedOk c -> mccCacheAll storedOk (Mcc.addSharedKeywordRow c row).
Proof.
  intros (Hc & Hl & Ha). unfold Mcc.addSharedKeywordRow.
  case_match; [done|].
  assert (Forall (fun entry => Forall storedOk (sl_negatives entry.2))
            (obj_init (Mcc.sharedLists c) (toStr (sk_listId row))
               (SharedListEntry (sk_listName row) []))) as Hl1.
  { apply (obj_init_Forall (fun l => Forall storedOk (sl_negatives l)));
      [done|constructor]. }
  destruct (Mcc.normalizeKeyword _ _) as [k|] eqn:Ek; [|done].
  split; [done|]. split; [|done]. simpl.
  apply (obj_update_Forall (fun l => Forall storedOk (sl_negatives l)));
    [done|].
  intros l Hs. simpl. apply Forall_app. split; [done|].
  constructor; [|done]. by eapply mcc_normalize_normal.
Qed.

Lemma addAssociationRow_all (c : Mcc.cache) (row : associationRow) :
  mccCacheAll storedOk c -> mccCacheAll storedOk (Mcc.addAssociationRow c row).
Proof.
  intros (Hc & Hl & Ha). split; [|done]. simpl. by apply addAssociation_all.
Qed.

Lemma addAccountNegativeRow_all (c : Mcc.cache) (row : accountNegativeRow) :
  mccCacheAll storedOk c ->
  mccCacheAll storedOk (Mcc.addAccountNegativeRow c row).
Proof.
  intros (Hc & Hl & Ha). unfold Mcc.addAccountNegativeRow.
  case_match; [done|].
  destruct (Mcc.normalizeKeyword _ _) as [k|] eqn:Ek; [|done].
  split; [done|]. split; [done|]. simpl.
  apply Forall_app. split; [done|]. constructor; [|done].
  by eapply mcc_normalize_normal.
Qed.

(** Every keyword that the multi-account builder stores, at any level, is a
    keyword returned by [normalizeKeyword]: its raw text is normal and not
    empty.  A row whose normalization fails adds no keyword. *)
Lemma mcc_cache_keywords_normal (ds : dataSource) (c : Mcc.cache) :
  Mcc.buildDataCache ds = Some c -> mccCacheAll storedOk c.
Proof.
  unfold Mcc.buildDataCache, Mcc.fetchKeywords, Mcc.fetchCampaignNegatives,
    Mcc.fetchSharedNegativeLists, Mcc.fetchAccountNegatives.
  destruct (keywordReport ds) as [kr|]; [|done].
  destruct (campaignNegativeReport ds) as [cr|]; [|done].
  destruct (sharedKeywordReport ds) as [sr|]; [|done].
  destruct (associationReport ds) as [ar|]; [|done].
  destruct (accountNegativeReport ds) as [nr|]; [|done].
  cbn [mbind result_bind]. intros [= <-].
  apply fold_left_invariant; [apply addAccountNegativeRow_all|].
  apply fold_left_invariant; [apply addAssociationRow_all|].
  apply fold_left_invariant; [apply addSharedKeywordRow_all|].
  apply fold_left_invariant; [apply addCampaignNegativeRow_all|].
  apply fold_left_invariant; [apply addKeywordRow_all|].
  repeat split; constructor.
Qed.

End MccCacheInvariant.

(** ** Worked examples *)

Section Examples.

Example broad_ignores_order :
  blocks (kw "red shoes" "red shoes" BROAD)
         (kw "shoes red cheap" "shoes red cheap" BROAD) = true.
Proof. reflexivity. Qed.

Example phrase_needs_contiguous_order :
  blocks (kw "running shoes" "running shoes" PHRASE)
         (kw "buy running shoes online" "buy running shoes online" BROAD)
  = true
  /\ blocks (kw "running shoes" "running shoes" PHRASE)
            (kw "shoes running fast" "shoes running fast" BROAD) = false
  /\ blocks (kw "shoes running" "shoes running" PHRASE)
            (kw "running shoes" "running shoes" BROAD) = false.
Proof. repeat split; reflexivity. Qed.

Example phrase_respects_word_boundaries :
  blocks (kw "car" "car" PHRASE) (kw "carpet cleaner" "carpet cleaner" BROAD)
  = false.
Proof. reflexivity. Qed.

Example broad_blocks_exact_and_phrase :
  blocks (kw "shoes" "shoes" BROAD) (kw "[shoes]" "shoes" EXACT) = true
  /\ blocks (kw "running" "running" BROAD)
            (kw "running shoes" "running shoes" PHRASE) = true.
Proof. split; reflexivity. Qed.

Example campaign_negative_row :
  Mcc.checkLevelForConflicts [] [kw "shoes" "shoes" BROAD]
    [kw "[shoes]" "shoes" EXACT] (campaignLocationOf (jstr "X"))
  = [[js "shoes"; js "Campaign: X"; js "[shoes]"]].
Proof. reflexivity. Qed.

Example duplicates_are_kept_in_order :
  Mcc.checkLevelForConflicts [] [kw "shoes" "shoes" BROAD]
    [kw "red shoes" "red shoes" BROAD; kw "hats" "hats" BROAD;
     kw "blue shoes" "blue shoes" BROAD; kw "red shoes" "red shoes" BROAD]
    (js "Account Level")
  = [[js "shoes"; js "Account Level"; js "red shoes, blue shoes, red shoes"]].
Proof. reflexivity. Qed.

Example normalize_samples :
  Mcc.normalizeKeyword (H:=asciiCase) (jstr "  +Red   +SHOES ")
    (jstr "broad_match")
  = Some (kw "red shoes" "red shoes" BROAD)
  /\ Mcc.normalizeKeyword (H:=asciiCase) (jstr "[Running Shoes]")
       (jstr "EXACT")
     = Some (kw "[running shoes]" "running shoes" EXACT)
  /\ Mcc.normalizeKeyword (H:=asciiCase) (jstr "[]") (jstr "EXACT") = None
  /\ Mcc.normalizeKeyword (H:=asciiCase) (jstr "shoes") JUndefined = None
  /\ Single.normalizeKeyword (H:=asciiCase) (jstr "+") (jstr "BROAD")
     = Some (kw "+" "+" BROAD)
  /\ Mcc.normalizeKeyword (H:=asciiCase) (jstr "+") (jstr "BROAD") = None.
Proof. repeat split; reflexivity. Qed.

Example for_in_order :
  map fst (forIn [(js "b", 1); (js "10", 2); (js "2", 3); (js "a", 4);
                  (js "02", 5); (js "4294967295", 6); (js "0", 7)])
  = [js "0"; js "2"; js "10"; js "b"; js "a"; js "02"; js "4294967295"].
Proof. reflexivity. Qed.

Example extract_list_id :
  extractListId (js "customers/123/sharedSets/456") = Some (js "456")
  /\ extractListId (js "customers/123/sharedSets/") = None
  /\ extractListId (js "customers/123/campaigns/456") = None.
Proof. repeat split; reflexivity. Qed.

End Examples.
